(** * Session layer of the VRChat client: cookie jar and login flow

    A shallow embedding of [src/index.ts]: the cookie model
    ([deseralizeCookie], [serializeCookie], [serializeCookies]), the cookie
    jar kept in a catbox cache ([getCookies], [saveCookies]), the request and
    response interceptors, and [login].

    Conventions of the embedding.
    - A JavaScript string is a [string]: one [ascii] per code unit.  HTTP
      header values reach the program as byte strings, one code unit per
      byte, so nothing is lost on the inputs of the cookie functions.
    - A JavaScript number is a [number]: NaN, the two infinities, or a finite
      value.  Finite values are integers: every time the program handles is a
      whole number of milliseconds.
    - [undefined] and [null] are [None] of an [option].
    - A plain object used as a dictionary is an [object]: its properties in
      creation order, enumerated the way the language enumerates own keys.
    - The cache, the generated API operations, the TOTP generator and the
      caller's code provider are effects of a program tree [Prog]; a handler
      plays their part.
    - [Date.now()] is the parameter [now] of the operation that reads it.
    - The [log] calls and the two logging interceptors change no value and
      are left out.
    - [new URL(url)] throws on a text that is not an absolute URL.  The URL
      of a request always parses; that of a response may not, and
      [saveCookies_url] has the failure. *)

From Stdlib Require Import ZArith NArith Lia Bool List String Ascii.
From Stdlib Require Import Permutation Sorted.
From stdpp Require Import base strings gmap.
Import ListNotations.

Local Open Scope string_scope.
Local Open Scope list_scope.
Local Open Scope Z_scope.

(** ** Numbers *)

Inductive number : Type :=
| NaN
| NegInf
| Fin (z : Z)
| PosInf.

Module Num.

(** ToBoolean on a number: [NaN] and [0] are falsy. *)
Definition truthy (n : number) : bool :=
  match n with
  | NaN => false
  | Fin z => negb (z =? 0)
  | NegInf | PosInf => true
  end.

(** [a + b] *)
Definition add (a b : number) : number :=
  match a, b with
  | NaN, _ | _, NaN => NaN
  | PosInf, NegInf | NegInf, PosInf => NaN
  | PosInf, _ | _, PosInf => PosInf
  | NegInf, _ | _, NegInf => NegInf
  | Fin x, Fin y => Fin (x + y)
  end.

Definition neg (a : number) : number :=
  match a with
  | NaN => NaN
  | NegInf => PosInf
  | PosInf => NegInf
  | Fin x => Fin (- x)
  end.

(** [a - b] *)
Definition sub (a b : number) : number := add a (neg b).

(** [a * b] *)
Definition mul (a b : number) : number :=
  match a, b with
  | NaN, _ | _, NaN => NaN
  | Fin x, Fin y => Fin (x * y)
  | Fin x, PosInf | PosInf, Fin x =>
      if x =? 0 then NaN else if 0 <? x then PosInf else NegInf
  | Fin x, NegInf | NegInf, Fin x =>
      if x =? 0 then NaN else if 0 <? x then NegInf else PosInf
  | PosInf, PosInf | NegInf, NegInf => PosInf
  | PosInf, NegInf | NegInf, PosInf => NegInf
  end.

(** [a <= b]: false as soon as one side is NaN. *)
Definition le (a b : number) : bool :=
  match a, b with
  | NaN, _ | _, NaN => false
  | NegInf, _ => true
  | _, PosInf => true
  | Fin x, Fin y => x <=? y
  | Fin _, NegInf => false
  | PosInf, _ => false
  end.

(** [a > b] *)
Definition gt (a b : number) : bool :=
  match a, b with
  | NaN, _ | _, NaN => false
  | PosInf, PosInf => false
  | PosInf, _ => true
  | _, PosInf => false
  | NegInf, _ => false
  | Fin _, NegInf => true
  | Fin x, Fin y => y <? x
  end.

(** [Math.max(a, b)] *)
Definition max (a b : number) : number :=
  match a, b with
  | NaN, _ | _, NaN => NaN
  | _, _ => if gt a b then a else b
  end.

(** [a || 0] on an optional number ([undefined || 0] is [0]). *)
Definition or_zero (a : option number) : number :=
  match a with
  | Some n => if truthy n then n else Fin 0
  | None => Fin 0
  end.

End Num.

(** ** Strings *)

Module Str.

(** [s.split(sep)] for a one-character separator. *)
Fixpoint split (sep : ascii) (s : string) : list string :=
  match s with
  | EmptyString => [EmptyString]
  | String c s' =>
      if Ascii.eqb c sep then EmptyString :: split sep s'
      else match split sep s' with
           | [] => [String c EmptyString]
           | w :: ws => String c w :: ws
           end
  end.

(** [l.join(sep)] *)
Definition join (sep : string) (l : list string) : string :=
  String.concat sep l.

(** White space and line terminators among the code units below 256. *)
Definition is_white_space (c : ascii) : bool :=
  let n := N_of_ascii c in
  ((9 <=? n) && (n <=? 13) || (n =? 32) || (n =? 160))%N.

Fixpoint trimStart (s : string) : string :=
  match s with
  | EmptyString => EmptyString
  | String c s' => if is_white_space c then trimStart s' else s
  end.

Fixpoint trimEnd (s : string) : string :=
  match s with
  | EmptyString => EmptyString
  | String c s' =>
      match trimEnd s' with
      | EmptyString => if is_white_space c then EmptyString
                       else String c EmptyString
      | t => String c t
      end
  end.

(** [s.trim()] *)
Definition trim (s : string) : string := trimEnd (trimStart s).

Definition lower (c : ascii) : ascii :=
  let n := N_of_ascii c in
  if ((65 <=? n) && (n <=? 90)
      || (192 <=? n) && (n <=? 222) && negb (n =? 215))%N
  then ascii_of_N (n + 32) else c.

(** [s.toLowerCase()] *)
Fixpoint toLowerCase (s : string) : string :=
  match s with
  | EmptyString => EmptyString
  | String c s' => String (lower c) (toLowerCase s')
  end.

(** ToBoolean on an optional string: [undefined] and the empty string
    are falsy. *)
Definition truthy (s : option string) : bool :=
  match s with
  | Some EmptyString | None => false
  | Some _ => true
  end.

(** A destructuring [[x, ...rest] = array]; where [x] would be [undefined]
    it stands as the text every later use coerces it to. *)
Definition uncons (l : list string) : string * list string :=
  match l with
  | [] => ("undefined", [])
  | x :: rest => (x, rest)
  end.

End Str.

(** [s.includes(c)] for a one-character [c]. *)
Fixpoint includes (c : ascii) (s : string) : bool :=
  match s with
  | EmptyString => false
  | String d s' => Ascii.eqb d c || includes c s'
  end.

(** ** Plain objects used as dictionaries *)

Module Obj.

Definition object (V : Type) : Type := list (string * V).

Definition digit (c : ascii) : option N :=
  let n := N_of_ascii c in
  if ((48 <=? n) && (n <=? 57))%N then Some (n - 48)%N else None.

Fixpoint digits (s : string) (acc : N) : option N :=
  match s with
  | EmptyString => Some acc
  | String c s' =>
      match digit c with
      | Some d => digits s' (10 * acc + d)%N
      | None => None
      end
  end.

(** A property key is an array index when it is the canonical decimal
    text of an integer below 2^32 - 1. *)
Definition array_index (k : string) : option N :=
  match k with
  | EmptyString => None
  | String c rest =>
      if Ascii.eqb c "0" then
        match rest with EmptyString => Some 0%N | _ => None end
      else
        match digits k 0 with
        | Some n => if (n <? 4294967295)%N then Some n else None
        | None => None
        end
  end.

Section WithValue.
Context {V : Type}.

(** [o[k]] as an own property. *)
Fixpoint get (k : string) (o : object V) : option V :=
  match o with
  | [] => None
  | (k', v) :: o' => if String.eqb k' k then Some v else get k o'
  end.

(** [o[k] = v]: an existing property keeps its place, a new one is
    created last. *)
Fixpoint set (k : string) (v : V) (o : object V) : object V :=
  match o with
  | [] => [(k, v)]
  | (k', v') :: o' =>
      if String.eqb k' k then (k, v) :: o' else (k', v') :: set k v o'
  end.

Fixpoint insert_sorted (i : N) (e : string * V)
    (l : list (N * (string * V))) : list (N * (string * V)) :=
  match l with
  | [] => [(i, e)]
  | (j, e') :: l' =>
      if (i <? j)%N then (i, e) :: l
      else (j, e') :: insert_sorted i e l'
  end.

Fixpoint index_part (o : object V) : list (N * (string * V)) :=
  match o with
  | [] => []
  | e :: o' =>
      match array_index (fst e) with
      | Some i => insert_sorted i e (index_part o')
      | None => index_part o'
      end
  end.

Definition is_index (e : string * V) : bool :=
  match array_index (fst e) with Some _ => true | None => false end.

(** [Object.entries(o)]: array-index keys in ascending order, then
    the other keys in creation order. *)
Definition entries (o : object V) : list (string * V) :=
  map snd (index_part o) ++ List.filter (fun e => negb (is_index e)) o.

(** [Object.values(o)] *)
Definition values (o : object V) : list V := map snd (entries o).

(** One assignment [o[k] = v] for an entry [[k, v]]. *)
Definition put (o : object V) (e : string * V) : object V :=
  set (fst e) (snd e) o.

(** [Object.fromEntries(l)] *)
Definition fromEntries (l : list (string * V)) : object V :=
  fold_left put l [].

(** [{...a, ...b}] *)
Definition spread2 (a b : object V) : object V :=
  fold_left put (entries b) (fold_left put (entries a) []).

End WithValue.

End Obj.

(** ** Values of the program *)

Inductive JSError : Type :=
| TypeError (msg : string).

Inductive result (A : Type) : Type :=
| Ok (a : A)
| Raise (e : JSError).
Arguments Ok {A} a.
Arguments Raise {A} e.

Definition result_bind {A B : Type} (r : result A) (f : A -> result B)
    : result B :=
  match r with
  | Ok a => f a
  | Raise e => Raise e
  end.

Fixpoint mapM {A B : Type} (f : A -> result B) (l : list A)
    : result (list B) :=
  match l with
  | [] => Ok []
  | a :: l' =>
      result_bind (f a) (fun b =>
      result_bind (mapM f l') (fun bs => Ok (b :: bs)))
  end.

(** ** Headers

    [headers.set(name, value)] of a request: the value loses the HTTP white
    space (tab, line feed, carriage return, space) at both ends; a value
    that then still holds a NUL, a line feed or a carriage return is
    refused with a TypeError; otherwise the header is set, replacing what
    was there. *)

Definition is_http_white_space (c : ascii) : bool :=
  let n := N_of_ascii c in
  ((n =? 9) || (n =? 10) || (n =? 13) || (n =? 32))%N.

Fixpoint stripStart (s : string) : string :=
  match s with
  | EmptyString => EmptyString
  | String c s' => if is_http_white_space c then stripStart s' else s
  end.

Fixpoint stripEnd (s : string) : string :=
  match s with
  | EmptyString => EmptyString
  | String c s' =>
      match stripEnd s' with
      | EmptyString => if is_http_white_space c then EmptyString
                       else String c EmptyString
      | t => String c t
      end
  end.

Definition normalize (value : string) : string :=
  stripEnd (stripStart value).

Definition is_header_value (v : string) : bool :=
  negb (includes "000" v || includes "010" v || includes "013" v).

Definition Headers_set (name value : string) (headers : gmap string string)
    : result (gmap string string) :=
  let v := normalize value in
  if is_header_value v then Ok (<[name := v]> headers)
  else Raise (TypeError "Invalid header value").

(** [type Cookie] *)
Record Cookie : Type := {
  name : string;
  value : string;
  expires : option number;
  options : Obj.object (option string)
}.

(** [Omit<Cookie, "name">], the value kept under a cookie's name. *)
Record Entry : Type := {
  e_value : string;
  e_expires : option number;
  e_options : Obj.object (option string)
}.

Abbreviation Collection := (Obj.object Entry).

Inductive RequestCredentials : Type :=
| omit
| same_origin
| include.

Record Request : Type := {
  req_credentials : RequestCredentials;
  req_url : string;
  req_headers : gmap string string
}.

Record Response : Type := {
  res_url : string;
  res_getSetCookie : list string;
  res_status : Z
}.

(** [Error["error"]] *)
Record ErrorValue : Type := {
  message : string;
  status_code : Z
}.

(** The body of the identity call: a user, or the marker that a second
    factor is needed. *)
Inductive Data : Type :=
| CurrentUser (displayName : string)
| TwoFactorRequired (requiresTwoFactorAuth : list string).

Record FetchResult : Type := {
  data : option Data;
  error : option ErrorValue;
  request : Request;
  response : Response
}.

Record Verify2FaResult : Type := {
  verified : bool
}.

Record VerifyResult : Type := {
  vr_data : option Verify2FaResult;
  vr_response : Response
}.

Record GetCurrentUserOptions : Type := {
  o_credentials : option RequestCredentials;
  o_authorization : option string
}.

(** ** Effects and programs *)

Inductive Eff : Type -> Type :=
| CacheIsReady : Eff bool
| CacheStart : Eff unit
| CacheGet (segment id : string) : Eff (option Collection)
| CacheSet (segment id : string) (item : Collection) (ttl : number) : Eff unit
| GetCurrentUser (o : GetCurrentUserOptions) : Eff FetchResult
| Verify2Fa (code : string) : Eff VerifyResult
| TOTPGenerate (secret : string) : Eff string.

Inductive Prog (R : Type) : Type :=
| Ret (r : R)
| Fail (e : JSError)
| Vis {X : Type} (e : Eff X) (k : X -> Prog R).
Arguments Ret {R} r.
Arguments Fail {R} e.
Arguments Vis {R X} e k.

Fixpoint bind {A B : Type} (p : Prog A) (f : A -> Prog B) : Prog B :=
  match p with
  | Ret a => f a
  | Fail e => Fail e
  | Vis e k => Vis e (fun x => bind (k x) f)
  end.

Definition perform {X : Type} (e : Eff X) : Prog X := Vis e Ret.

Definition lift {A : Type} (r : result A) : Prog A :=
  match r with
  | Ok a => Ret a
  | Raise e => Fail e
  end.

Notation "'let*' x ':=' p 'in' q" := (bind p (fun x => q))
  (at level 10, x name, p at level 100, q at level 200).

(** [Promise.all] over an array whose holes are [undefined]: the calls are
    started in array order and the results come back in array order. *)
Fixpoint all {X : Type} (ps : list (option (Prog X)))
    : Prog (list (option X)) :=
  match ps with
  | [] => Ret []
  | None :: ps' => bind (all ps') (fun xs => Ret (None :: xs))
  | Some p :: ps' =>
      bind p (fun x => bind (all ps') (fun xs => Ret (Some x :: xs)))
  end.

(** A call made to the outside. *)
Inductive Call : Type :=
| MkCall {X : Type} (e : Eff X).

Definition Handler (S : Type) : Type := forall X : Type, Eff X -> S -> X * S.

(** Running a program against a handler: the outcome, the final state of the
    outside, and the calls in the order they were made. *)
Fixpoint run {S R : Type} (h : Handler S) (p : Prog R) (s : S)
    : result R * S * list Call :=
  match p with
  | Ret r => (Ok r, s, [])
  | Fail e => (Raise e, s, [])
  | Vis e k =>
      let '(x, s1) := h _ e s in
      let '(r, s2, t) := run h (k x) s1 in
      (r, s2, MkCall e :: t)
  end.

Definition is_verify (c : Call) : bool :=
  match c with
  | MkCall (Verify2Fa _) => true
  | MkCall _ => false
  end.

(** The writes to the cache among the calls, oldest first: segment, item
    and TTL of each [set]. *)
Fixpoint writes (t : list Call) : list (string * Collection * number) :=
  match t with
  | [] => []
  | MkCall (CacheSet segment _ item ttl) :: t' =>
      (segment, item, ttl) :: writes t'
  | _ :: t' => writes t'
  end.

(** ** Functions of the platform *)

Class Platform : Type := {
  (** [Number(s)] *)
  Number : string -> number;
  (** [new Date(s).getTime()] *)
  Date_getTime : string -> number;
  (** [new URL(url).origin], for a [url] that [new URL] accepts *)
  URL_origin : string -> string;
  (** whether [new URL(url)] returns; it throws a TypeError otherwise *)
  URL_canParse : string -> bool;
  btoa : string -> string;
  encodeURIComponent : string -> string
}.

(** ** The program *)

Section Program.
Context `{Platform}.

(** One attribute of a cookie header: [option.split("=")], the name
    trimmed and lower-cased, the value as it stands ([undefined] without
    a ["="]). *)
Definition deseralizeOption (opt : string)
    : result (string * option string) :=
  let parts := Str.split "=" opt in
  match nth_error parts 0 with
  | None => Raise (TypeError "name is undefined")
  | Some name => Ok (Str.toLowerCase (Str.trim name), nth_error parts 1)
  end.

(** [options[k]], [undefined] when the property is missing. *)
Definition option_value (k : string) (options : Obj.object (option string))
    : option string :=
  match Obj.get k options with
  | Some v => v
  | None => None
  end.

Definition deseralizeCookie (now : Z) (cookie : string) : result Cookie :=
  let '(name, rest) := Str.uncons (Str.split "=" cookie) in
  let '(value, _options) :=
    Str.uncons (Str.split ";" (Str.join "=" rest)) in
  result_bind (mapM deseralizeOption _options) (fun pairs =>
  let options := Obj.fromEntries pairs in
  let expires :=
    if Str.truthy (option_value "max-age" options)
    then Some (Num.add (Fin now)
                 (Num.mul
                    (Number
                       (default EmptyString
                          (option_value "max-age" options)))
                    (Fin 1000)))
    else if Str.truthy (option_value "expires" options)
    then Some (Date_getTime
                 (default EmptyString (option_value "expires" options)))
    else None in
  Ok {| name := name; value := value; expires := expires;
        options := options |}).

Definition serializeCookie (name value : string) : string :=
  name +:+ "=" +:+ value.

Definition serializeCookies (cookies : Collection) : string :=
  Str.join "; "
    (map (fun e => serializeCookie (fst e) (e_value (snd e)))
       (Obj.entries cookies)).

Definition issue (message : string) (status_code : Z) : ErrorValue :=
  {| message := message; status_code := status_code |}.

(** The filter of [getCookies]:
    [expires ? expires <= Date.now() : true]. *)
Definition retained (now : Z) (e : string * Entry) : bool :=
  match e_expires (snd e) with
  | Some x => if Num.truthy x then Num.le x (Fin now) else true
  | None => true
  end.

Definition ensureReady : Prog unit :=
  let* ready := perform CacheIsReady in
  if ready then Ret tt else perform CacheStart.

Definition getCookies (now : Z) (credentials : RequestCredentials)
    (url : string) : Prog Collection :=
  match credentials with
  | omit => Ret []
  | _ =>
      let origin := URL_origin url in
      let* _ := ensureReady in
      let* value := perform (CacheGet origin "cookies") in
      match value with
      | None => Ret []
      | Some _cookies =>
          Ret (Obj.fromEntries
                 (List.filter (retained now) (Obj.entries _cookies)))
      end
  end.

(** [(a, b) => (a.expires?.valueOf() || 0) > (b.expires?.valueOf() || 0)
    ? a : b] *)
Definition later (a b : Entry) : Entry :=
  if Num.gt (Num.or_zero (e_expires a)) (Num.or_zero (e_expires b))
  then a else b.

(** [expires ? Math.max(expires - Date.now(), 0) : Infinity] *)
Definition ttl_of (now : Z) (expires : option number) : number :=
  match expires with
  | Some x =>
      if Num.truthy x then Num.max (Num.sub x (Fin now)) (Fin 0)
      else PosInf
  | None => PosInf
  end.

(** [(cookie) => { const { name, ...value } = deseralizeCookie(cookie);
    return [name, value]; }] *)
Definition setCookieEntry (now : Z) (cookie : string)
    : result (string * Entry) :=
  result_bind (deseralizeCookie now cookie) (fun c =>
  Ok (name c, {| e_value := value c; e_expires := expires c;
                 e_options := options c |})).

Definition saveCookies (now : Z) (response : Response) : Prog unit :=
  let origin := URL_origin (res_url response) in
  let* old := getCookies now include (res_url response) in
  let* parsed :=
    lift (mapM (setCookieEntry now) (res_getSetCookie response)) in
  let cookies := Obj.spread2 old (Obj.fromEntries parsed) in
  match Obj.values cookies with
  | [] => Ret tt
  | first :: others =>
      let chosen := fold_left later others first in
      let* _ := ensureReady in
      perform (CacheSet origin "cookies" cookies
                 (ttl_of now (e_expires chosen)))
  end.

(** [saveCookies] from its first line on any response: [new URL(url)]
    throws on a URL that does not parse, before anything else is done; on
    one that parses the function goes on as [saveCookies] above, which is
    lines 122 to 146 for such a response. *)
Definition saveCookies_url (now : Z) (response : Response) : Prog unit :=
  if URL_canParse (res_url response) then saveCookies now response
  else Fail (TypeError "Invalid URL").

(** The second request interceptor.  The URL of a request always parses. *)
Definition cookieInjection (now : Z) (request : Request) : Prog Request :=
  let* cookies :=
    getCookies now (req_credentials request) (req_url request) in
  let* headers :=
    lift (Headers_set "cookie" (serializeCookies cookies)
            (req_headers request)) in
  Ret {| req_credentials := req_credentials request;
         req_url := req_url request;
         req_headers := headers |}.

(** The first response interceptor. *)
Definition cookieCapture (now : Z) (response : Response) : Prog Response :=
  let* _ := saveCookies_url now response in
  Ret response.

(** [type LoginCredentials]; the code provider is a program of its own. *)
Record LoginCredentials : Type := {
  username : string;
  password : string;
  twoFactorSecret : option string;
  twoFactorCode : option (Prog string)
}.

Definition verify2Fa (code : string) : Prog VerifyResult :=
  perform (Verify2Fa code).

(** [value?.data?.verified] as a truth value. *)
Definition data_verified (value : option VerifyResult) : bool :=
  match value with
  | Some r =>
      match vr_data r with
      | Some d => verified d
      | None => false
      end
  | None => false
  end.

(** [value?.response.status === 429] *)
Definition status_is_429 (value : option VerifyResult) : bool :=
  match value with
  | Some r => res_status (vr_response r) =? 429
  | None => false
  end.

(** Lines 225 to 237: what [login] does with the settled factors. *)
Definition conclude (factors : list (option VerifyResult))
    (request : Request) (response : Response) : Prog FetchResult :=
  let verified :=
    match find data_verified factors with
    | Some value => data_verified value
    | None => false
    end in
  let tooManyAttempts :=
    match find status_is_429 factors with
    | Some value => status_is_429 value
    | None => false
    end in
  if negb verified then
    Ret {| data := None;
           error := Some (if tooManyAttempts
                          then issue "Too many attempts, try again later" 429
                          else issue "Invalid two-factor authentication code"
                                 400);
           request := request; response := response |}
  else
    perform (GetCurrentUser {| o_credentials := None;
                               o_authorization := None |}).

(** The strategies tried for a code, [undefined] where one does not
    apply. *)
Definition strategies (code : string)
    : list (option (string -> Prog VerifyResult)) :=
  [ if (String.length code =? 6)%nat then Some verify2Fa else None ].

(** The options of the first identity call. *)
Definition loginOptions (c : LoginCredentials) : GetCurrentUserOptions :=
  {| o_credentials := Some omit;
     o_authorization :=
       Some ("Basic " +:+
             btoa (encodeURIComponent (username c) +:+ ":" +:+
                   encodeURIComponent (password c))) |}.

(** Lines 204 and 205:
    [if (twoFactorSecret && !twoFactorCode)
       twoFactorCode = () => TOTP.generate(twoFactorSecret).otp]. *)
Definition resolveCode (c : LoginCredentials) : option (Prog string) :=
  if Str.truthy (twoFactorSecret c)
     && match twoFactorCode c with Some _ => false | None => true end
  then Some (perform
               (TOTPGenerate (default EmptyString (twoFactorSecret c))))
  else twoFactorCode c.

Definition login (c : LoginCredentials) : Prog FetchResult :=
  let* r := perform (GetCurrentUser (loginOptions c)) in
  match error r with
  | Some e =>
      Ret {| data := None; error := Some e;
             request := request r; response := response r |}
  | None =>
      match data r with
      | Some (TwoFactorRequired _) =>
          match resolveCode c with
          | None =>
              Ret {| data := None;
                     error := Some (issue
                       "Missing two-factor authentication, incomplete login flow"
                       400);
                     request := request r; response := response r |}
          | Some twoFactorCode =>
              let* code := twoFactorCode in
              let* factors :=
                all (map (fun fn => option_map (fun f => f code) fn)
                       (strategies code)) in
              conclude factors (request r) (response r)
          end
      | _ =>
          Ret {| data := data r; error := None;
                 request := request r; response := response r |}
      end
  end.

(** The errors [login] makes itself, and the result that carries one. *)
Definition invalidCode : ErrorValue :=
  issue "Invalid two-factor authentication code" 400.

Definition tooManyAttempts : ErrorValue :=
  issue "Too many attempts, try again later" 429.

Definition missingTwoFactor : ErrorValue :=
  issue "Missing two-factor authentication, incomplete login flow" 400.

Definition failure (e : ErrorValue) (r : FetchResult) : FetchResult :=
  {| data := None; error := Some e;
     request := request r; response := response r |}.

End Program.

(** ** A reference outside world

    Used to run the program on examples.  The functions of the platform are
    given on the texts the examples use; the cache keeps what was last set
    under a key, with the TTL it was given, and leaves eviction aside. *)

Module Reference.

(** [Number] on an optionally signed run of decimal digits, white space
    around it dropped, and on the empty text; any other text reads as
    [NaN] here. *)
Definition Number_int (s : string) : number :=
  match Str.trim s with
  | EmptyString => Fin 0
  | String c r as t =>
      if Ascii.eqb c "-" then
        match r, Obj.digits r 0 with
        | String _ _, Some n => Fin (- Z.of_N n)
        | _, _ => NaN
        end
      else if Ascii.eqb c "+" then
        match r, Obj.digits r 0 with
        | String _ _, Some n => Fin (Z.of_N n)
        | _, _ => NaN
        end
      else
        match Obj.digits t 0 with
        | Some n => Fin (Z.of_N n)
        | None => NaN
        end
  end.

(** The date texts of the examples; any other text reads as [NaN]. *)
Definition getTime_table (s : string) : number :=
  if String.eqb s "Thu, 01 Jan 1970 00:00:10 GMT" then Fin 10000
  else if String.eqb s "Thu, 01 Jan 1970 00:01:00 GMT" then Fin 60000
  else NaN.

(** Scheme and authority of an absolute URL. *)
Definition origin_prefix (url : string) : string :=
  Str.join "/" (firstn 3 (Str.split "/" url)).

(** The URLs that parse, among the texts of the examples: those that start
    with a scheme and two slashes. *)
Definition can_parse (url : string) : bool :=
  String.prefix "https://" url || String.prefix "http://" url.

#[local] Instance platform : Platform := {|
  Number := Number_int;
  Date_getTime := getTime_table;
  URL_origin := origin_prefix;
  URL_canParse := can_parse;
  btoa := fun s => s;
  encodeURIComponent := fun s => s
|}.

Record World : Type := {
  w_ready : bool;
  w_store : gmap (string * string) (Collection * number);
  w_identity : GetCurrentUserOptions -> FetchResult;
  w_verify : string -> VerifyResult;
  w_totp : string -> string
}.

Definition with_ready (b : bool) (w : World) : World :=
  {| w_ready := b; w_store := w_store w; w_identity := w_identity w;
     w_verify := w_verify w; w_totp := w_totp w |}.

Definition with_store (m : gmap (string * string) (Collection * number))
    (w : World) : World :=
  {| w_ready := w_ready w; w_store := m; w_identity := w_identity w;
     w_verify := w_verify w; w_totp := w_totp w |}.

Definition handle : Handler World :=
  fun X e =>
    match e in Eff X return World -> X * World with
    | CacheIsReady => fun w => (w_ready w, w)
    | CacheStart => fun w => (tt, with_ready true w)
    | CacheGet segment id =>
        fun w => (fst <$> w_store w !! (segment, id), w)
    | CacheSet segment id item ttl =>
        fun w =>
          (tt, with_store (<[(segment, id) := (item, ttl)]> (w_store w)) w)
    | GetCurrentUser o => fun w => (w_identity w o, w)
    | Verify2Fa code => fun w => (w_verify w code, w)
    | TOTPGenerate secret => fun w => (w_totp w secret, w)
    end.

(** The outside after a program has run. *)
Definition after {R : Type} (p : Prog R) (w : World) : World :=
  snd (fst (run handle p w)).

(** The same outside with a cache that lets entries die: at time [now] a
    [set] keeps the item with the time its TTL ends, and a [get] gives an
    item back only before that time. *)
Definition expiring (now : Z) : Handler World :=
  fun X e =>
    match e in Eff X return World -> X * World with
    | CacheGet segment id =>
        fun w =>
          (match w_store w !! (segment, id) with
           | Some (item, deadline) =>
               if Num.gt deadline (Fin now) then Some item else None
           | None => None
           end, w)
    | CacheSet segment id item ttl =>
        fun w =>
          (tt, with_store
                 (<[(segment, id) := (item, Num.add (Fin now) ttl)]>
                    (w_store w)) w)
    | e' => handle _ e'
    end.

Definition url : string := "https://vrchat.com/api/1/auth/user".
Definition origin : string := "https://vrchat.com".

Definition a_request : Request :=
  {| req_credentials := include; req_url := url; req_headers := ∅ |}.

Definition a_response (setCookie : list string) : Response :=
  {| res_url := url; res_getSetCookie := setCookie; res_status := 200 |}.

Definition session (v : string) : Entry :=
  {| e_value := v; e_expires := None; e_options := [] |}.

Definition until (v : string) (t : Z) : Entry :=
  {| e_value := v; e_expires := Some (Fin t); e_options := [] |}.

Definition a_user : FetchResult :=
  {| data := Some (CurrentUser "tupper"); error := None;
     request := a_request; response := a_response [] |}.

Definition needs_factor : FetchResult :=
  {| data := Some (TwoFactorRequired ["totp"]); error := None;
     request := a_request; response := a_response [] |}.

Definition a_verdict (ok : bool) (status : Z) : VerifyResult :=
  {| vr_data := Some {| verified := ok |};
     vr_response := {| res_url := url; res_getSetCookie := [];
                       res_status := status |} |}.

(** A world whose cache holds [jar] for [origin], whose service asks for a
    second factor until it is given the code [good], and whose TOTP
    generator gives the secret back as the code. *)
Definition world (jar : option Collection) (good : string) : World :=
  {| w_ready := false;
     w_store :=
       match jar with
       | Some item => {[ (origin, "cookies") := (item, PosInf) ]}
       | None => ∅
       end;
     w_identity := fun o =>
       match o_authorization o with
       | Some _ => needs_factor
       | None => a_user
       end;
     w_verify := fun code =>
       if String.eqb code good then a_verdict true 200
       else a_verdict false 400;
     w_totp := fun secret => secret |}.

End Reference.

(** ** The specification's wording, as definitions to compare with

    Each definition below follows a sentence of the specification, not the
    source; the theorems set them against the program. *)

Module Spec.

(** "entries whose expiresAt is null or strictly in the future" *)
Definition valid_at (now : Z) (e : string * Entry) : bool :=
  match e_expires (snd e) with
  | Some x => Num.gt x (Fin now)
  | None => true
  end.

(** "the minimum non-null expiresAt across all entries" *)
Definition minExpiresAt (item : Collection) : option number :=
  match omap e_expires (Obj.values item) with
  | [] => None
  | x :: xs =>
      Some (fold_left (fun m y => if Num.gt m y then y else m) xs x)
  end.

(** "TTL = max(minExpiresAt - now, 0); if no entry has an expiry,
    TTL = unbounded" *)
Definition ttl (now : Z) (item : Collection) : number :=
  match minExpiresAt item with
  | Some m => Num.max (Num.sub m (Fin now)) (Fin 0)
  | None => PosInf
  end.

(** "joins name=value pairs with "; " in insertion order of the
    mapping": [inserted] is the sequence of insertions. *)
Definition serializeCollection (inserted : list (string * Entry)) : string :=
  Str.join "; "
    (map (fun e => fst e +:+ "=" +:+ e_value (snd e)) inserted).

Section WithPlatform.
Context `{Platform}.

(** "max-age (if present and numeric) yields now + max-age*1000; else
    expires (if parseable as a date) yields the parsed date; else
    null" *)
Definition expiresAt (now : Z) (options : Obj.object (option string))
    : option number :=
  let numeric :=
    match option_value "max-age" options with
    | Some (String _ _ as v) =>
        match Number v with NaN => None | n => Some n end
    | _ => None
    end in
  let parsed :=
    match option_value "expires" options with
    | Some (String _ _ as v) =>
        match Date_getTime v with NaN => None | n => Some n end
    | _ => None
    end in
  match numeric with
  | Some n => Some (Num.add (Fin now) (Num.mul n (Fin 1000)))
  | None => parsed
  end.

End WithPlatform.

End Spec.

(** ** Vocabulary of the further properties *)

(** ** A cookie header, as it is written

    Every header that holds an ["="] is a name, ["="], a value and then
    attributes, each after a [";"]; an attribute is a name, maybe followed
    by ["="] and a value, maybe followed by ["="] and more text. *)

Module Header.

Record attribute : Type := {
  a_name : string;
  a_value : option string;
  a_more : option string
}.

Definition text (a : attribute) : string :=
  match a_value a with
  | None => a_name a
  | Some v =>
      match a_more a with
      | None => a_name a +:+ "=" +:+ v
      | Some m => a_name a +:+ "=" +:+ v +:+ "=" +:+ m
      end
  end.

(** The name holds neither ["="] nor [";"], the value neither, the further
    text no [";"], and there is no further text without a value. *)
Definition well_formed (a : attribute) : bool :=
  negb (includes "=" (a_name a)) && negb (includes ";" (a_name a))
  && match a_value a with
     | None => match a_more a with None => true | Some _ => false end
     | Some v =>
         negb (includes "=" v) && negb (includes ";" v)
         && match a_more a with
            | None => true
            | Some m => negb (includes ";" m)
            end
     end.

Fixpoint tail (attrs : list attribute) : string :=
  match attrs with
  | [] => EmptyString
  | a :: rest => ";" +:+ text a +:+ tail rest
  end.

(** The header [name=value;attribute;...;attribute]. *)
Definition render (n v : string) (attrs : list attribute) : string :=
  n +:+ "=" +:+ v +:+ tail attrs.

(** The name of an attribute without the white space around it, in lower
    case. *)
Definition normal_name (a : attribute) : string :=
  Str.toLowerCase (Str.trim (a_name a)).

(** The last attribute that goes by the name [k]. *)
Fixpoint last_named (k : string) (attrs : list attribute)
    : option attribute :=
  match attrs with
  | [] => None
  | a :: rest =>
      match last_named k rest with
      | Some b => Some b
      | None => if String.eqb (normal_name a) k then Some a else None
      end
  end.

(** The value the header gives to [k]: that of the last attribute named
    [k], if there is one and it has a value. *)
Definition given (k : string) (attrs : list attribute) : option string :=
  match last_named k attrs with
  | Some a => a_value a
  | None => None
  end.

(** The attribute a text without [";"] writes. *)
Definition of_text (seg : string) : attribute :=
  match Str.split "=" seg with
  | [] => {| a_name := seg; a_value := None; a_more := None |}
  | [n] => {| a_name := n; a_value := None; a_more := None |}
  | [n; v] => {| a_name := n; a_value := Some v; a_more := None |}
  | n :: v :: more =>
      {| a_name := n; a_value := Some v;
         a_more := Some (Str.join "=" more) |}
  end.

Section WithPlatform.
Context `{Platform}.

(** The expiry the attributes of a header give at time [now]: from the
    last [max-age] when it has a non-empty value, whether that value is a
    number or not; else from the last [expires] when it has a non-empty
    value, whether that value is a date or not; else none. *)
Definition expiresAt (now : Z) (attrs : list attribute) : option number :=
  match given "max-age" attrs with
  | Some (String _ _ as x) =>
      Some (Num.add (Fin now) (Num.mul (Number x) (Fin 1000)))
  | _ =>
      match given "expires" attrs with
      | Some (String _ _ as x) => Some (Date_getTime x)
      | _ => None
      end
  end.

End WithPlatform.

End Header.

(** The credentials without the secret, and with a provider that asks the
    TOTP generator in place of the secret. *)
Definition without_secret (c : LoginCredentials) : LoginCredentials :=
  {| username := username c; password := password c;
     twoFactorSecret := None; twoFactorCode := twoFactorCode c |}.

Definition with_generator (c : LoginCredentials) (secret : string)
    : LoginCredentials :=
  {| username := username c; password := password c;
     twoFactorSecret := None;
     twoFactorCode := Some (perform (TOTPGenerate secret)) |}.

(** The outside at the moment [getCookies] reads the cache, and what the
    cache answers then for the origin of [url]. *)
Definition at_read {S : Type} (h : Handler S) (s : S) : S :=
  snd (fst (run h ensureReady s)).

Definition stored `{Platform} {S : Type} (h : Handler S) (url : string)
    (s : S) : option Collection :=
  fst (h _ (CacheGet (URL_origin url) "cookies") (at_read h s)).

(** A reference world whose service answers the login call with [first],
    a later identity call with [Reference.a_user] and every verification
    call with [verdict]. *)
Definition world_answering (first : FetchResult) (verdict : VerifyResult)
    : Reference.World :=
  {| Reference.w_ready := false;
     Reference.w_store := ∅;
     Reference.w_identity := fun o =>
       match o_authorization o with
       | Some _ => first
       | None => Reference.a_user
       end;
     Reference.w_verify := fun _ => verdict;
     Reference.w_totp := fun secret => secret |}.

Definition unauthorized : FetchResult :=
  {| data := None;
     error := Some {| message := "Invalid Username/Email or Password";
                      status_code := 401 |};
     request := Reference.a_request;
     response := {| res_url := Reference.url; res_getSetCookie := [];
                    res_status := 401 |} |}.

(** * Theorems *)

(** ** Running programs *)

Lemma run_bind {S A B : Type} (h : Handler S) (p : Prog A) (f : A -> Prog B)
    (s : S) :
  run h (bind p f) s =
    match run h p s with
    | (Ok a, s1, t1) =>
        let '(r, s2, t2) := run h (f a) s1 in (r, s2, t1 ++ t2)
    | (Raise e, s1, t1) => (Raise e, s1, t1)
    end.
Proof.
  revert s. induction p as [a | e | X e k IH]; intros s; simpl.
  - destruct (run h (f a) s) as [[r s2] t2]. reflexivity.
  - reflexivity.
  - destruct (h X e s) as [x s1]. rewrite IH.
    destruct (run h (k x) s1) as [[[a | e'] s2] t1]; [| reflexivity].
    destruct (run h (f a) s2) as [[r s3] t2]. reflexivity.
Qed.

Lemma run_perform {S X : Type} (h : Handler S) (e : Eff X) (s : S) :
  run h (perform e) s = (Ok (fst (h X e s)), snd (h X e s), [MkCall e]).
Proof.
  unfold perform. simpl. destruct (h X e s) as [x s1]. reflexivity.
Qed.

Lemma existsb_find {A : Type} (p : A -> bool) (l : list A) :
  match find p l with Some x => p x | None => false end = existsb p l.
Proof.
  induction l as [| a l IH]; simpl; [reflexivity |].
  destruct (p a) eqn:E; simpl; [exact E | exact IH].
Qed.


Section LoginTheorems.
Context `{Platform}.

Lemma conclude_existsb (factors : list (option VerifyResult))
    (request : Request) (response : Response) :
  conclude factors request response =
    if existsb data_verified factors
    then perform (GetCurrentUser {| o_credentials := None;
                                    o_authorization := None |})
    else Ret {| data := None;
                error := Some (if existsb status_is_429 factors
                               then tooManyAttempts else invalidCode);
                request := request; response := response |}.
Proof.
  unfold conclude. rewrite !existsb_find.
  destruct (existsb data_verified factors); reflexivity.
Qed.


(** C4, as amended.  A request with [credentials: "omit"] goes through the
    cookie interceptor without a single call to the cache: the jar is not
    read, the outside is left as it was, and whatever the jar holds the
    request comes out the same.  The stage is not skipped: it sets the
    [cookie] header to the empty string, in place of any [cookie] header
    the request came with. *)
Theorem cookieInjection_omit {S : Type} (h : Handler S) (s : S) (now : Z)
    (request : Request) :
  req_credentials request = omit ->
  run h (cookieInjection now request) s =
    (Ok {| req_credentials := omit;
           req_url := req_url request;
           req_headers :=
             <["cookie" := EmptyString]> (req_headers request) |},
     s, []).
Proof.
  intros Homit. unfold cookieInjection, getCookies.
  rewrite Homit. reflexivity.
Qed.

(** C6. When the first identity call answers that a second factor is
    needed and the caller gave neither [twoFactorSecret] nor
    [twoFactorCode], [login] returns the error ("Missing two-factor
    authentication, incomplete login flow", 400); the identity call is the
    only call it makes, so no verification call is made. *)
Theorem login_missing_two_factor {S : Type} (h : Handler S) (s s1 : S)
    (c : LoginCredentials) (r : FetchResult) (methods : list string) :
  twoFactorSecret c = None ->
  twoFactorCode c = None ->
  h _ (GetCurrentUser (loginOptions c)) s = (r, s1) ->
  error r = None ->
  data r = Some (TwoFactorRequired methods) ->
  run h (login c) s =
    (Ok (failure missingTwoFactor r), s1,
     [MkCall (GetCurrentUser (loginOptions c))])
  /\ List.filter is_verify (snd (run h (login c) s)) = [].
Proof.
  intros Hsecret Hcode Hcall Herror Hdata.
  assert (Hrun : run h (login c) s =
            (Ok (failure missingTwoFactor r), s1,
             [MkCall (GetCurrentUser (loginOptions c))])).
  { unfold login, perform. simpl. rewrite Hcall.
    rewrite Herror, Hdata. unfold resolveCode.
    rewrite Hsecret, Hcode. reflexivity. }
  split; [exact Hrun |]. rewrite Hrun. reflexivity.
Qed.

(** C10. When [login] has obtained a code whose length is not 6, it makes
    no call after the code provider has returned, so no verification call
    is sent, and it returns the error ("Invalid two-factor authentication
    code", 400). *)
Theorem login_code_length {S : Type} (h : Handler S) (s s1 s2 : S)
    (c : LoginCredentials) (r : FetchResult) (methods : list string)
    (twoFactorCode : Prog string) (code : string) (calls : list Call) :
  h _ (GetCurrentUser (loginOptions c)) s = (r, s1) ->
  error r = None ->
  data r = Some (TwoFactorRequired methods) ->
  resolveCode c = Some twoFactorCode ->
  run h twoFactorCode s1 = (Ok code, s2, calls) ->
  String.length code <> 6%nat ->
  run h (login c) s =
    (Ok (failure invalidCode r), s2,
     MkCall (GetCurrentUser (loginOptions c)) :: calls).
Proof.
  intros Hcall Herror Hdata Hresolve Hcode Hlen.
  unfold login, perform. simpl. rewrite Hcall.
  rewrite Herror, Hdata, Hresolve.
  rewrite run_bind, Hcode. unfold strategies.
  destruct (Nat.eqb_spec (String.length code) 6) as [E | _];
    [contradiction |].
  simpl. rewrite app_nil_r. reflexivity.
Qed.

(** With a code of length 6 the one verification call is sent, and its
    result is what [login] concludes on. *)
Lemma login_concludes {S : Type} (h : Handler S) (s s1 s2 s3 : S)
    (c : LoginCredentials) (r : FetchResult) (methods : list string)
    (twoFactorCode : Prog string) (code : string) (calls : list Call)
    (v : VerifyResult) :
  h _ (GetCurrentUser (loginOptions c)) s = (r, s1) ->
  error r = None ->
  data r = Some (TwoFactorRequired methods) ->
  resolveCode c = Some twoFactorCode ->
  run h twoFactorCode s1 = (Ok code, s2, calls) ->
  String.length code = 6%nat ->
  h _ (Verify2Fa code) s2 = (v, s3) ->
  run h (login c) s =
    let '(out, s4, t) :=
      run h (conclude [Some v] (request r) (response r)) s3 in
    (out, s4,
     MkCall (GetCurrentUser (loginOptions c))
       :: calls ++ MkCall (Verify2Fa code) :: t).
Proof.
  intros Hcall Herror Hdata Hresolve Hcode Hlen Hverify.
  unfold login, perform. simpl. rewrite Hcall.
  rewrite Herror, Hdata, Hresolve.
  rewrite run_bind, Hcode. unfold strategies. rewrite Hlen.
  simpl. rewrite Hverify.
  destruct (run h (conclude [Some v] (request r) (response r)) s3)
    as [[out s4] t].
  reflexivity.
Qed.

End LoginTheorems.

(** ** Objects *)

Section ObjectFacts.
Context {V : Type}.
Implicit Types (o : Obj.object V) (l : list (string * V)) (k : string).

Lemma get_set_eq k (v : V) o : Obj.get k (Obj.set k v o) = Some v.
Proof.
  induction o as [| [k' v'] o IH]; simpl.
  - rewrite String.eqb_refl. reflexivity.
  - destruct (String.eqb k' k) eqn:E; simpl.
    + rewrite String.eqb_refl. reflexivity.
    + rewrite E. exact IH.
Qed.

Lemma get_set_ne k k' (v : V) o :
  k' <> k -> Obj.get k (Obj.set k' v o) = Obj.get k o.
Proof.
  intros Hne. apply String.eqb_neq in Hne.
  induction o as [| [k1 v1] o IH]; simpl.
  - rewrite Hne. reflexivity.
  - destruct (String.eqb k1 k') eqn:E; simpl.
    + apply String.eqb_eq in E. subst k1. rewrite Hne. reflexivity.
    + rewrite IH. reflexivity.
Qed.

Lemma get_app k l l' :
  Obj.get k (l ++ l') =
    match Obj.get k l with Some v => Some v | None => Obj.get k l' end.
Proof.
  induction l as [| [k1 v1] l IH]; simpl; [reflexivity |].
  destruct (String.eqb k1 k); [reflexivity | exact IH].
Qed.

Lemma get_fold_put l o k :
  Obj.get k (fold_left Obj.put l o) =
    match Obj.get k (rev l) with
    | Some v => Some v
    | None => Obj.get k o
    end.
Proof.
  revert o. induction l as [| [k1 v1] l IH]; intros o; simpl;
    [reflexivity |].
  rewrite IH, get_app. destruct (Obj.get k (rev l)); [reflexivity |].
  unfold Obj.put. simpl. destruct (String.eqb k1 k) eqn:E.
  - apply String.eqb_eq in E. subst k1. apply get_set_eq.
  - apply String.eqb_neq in E. apply get_set_ne. exact E.
Qed.

Lemma get_In k (v : V) l : Obj.get k l = Some v -> In (k, v) l.
Proof.
  induction l as [| [k1 v1] l IH]; simpl; [discriminate |].
  destruct (String.eqb k1 k) eqn:E.
  - apply String.eqb_eq in E. intros [= ->]. left. congruence.
  - intros Hg. right. exact (IH Hg).
Qed.

Lemma In_get k (v : V) l :
  List.NoDup (map fst l) -> In (k, v) l -> Obj.get k l = Some v.
Proof.
  induction l as [| [k1 v1] l IH]; simpl; [contradiction |].
  intros Hnd [Heq | Hin].
  - injection Heq as -> ->. rewrite String.eqb_refl. reflexivity.
  - apply List.NoDup_cons_iff in Hnd. destruct Hnd as [Hnotin Hnd].
    destruct (String.eqb k1 k) eqn:E.
    + apply String.eqb_eq in E. subst k1. exfalso. apply Hnotin.
      apply (in_map fst) in Hin. exact Hin.
    + exact (IH Hnd Hin).
Qed.

Lemma get_Permutation k l l' :
  List.NoDup (map fst l) -> Permutation l l' -> Obj.get k l = Obj.get k l'.
Proof.
  intros Hnd HP.
  assert (Hnd' : List.NoDup (map fst l')).
  { eapply Permutation_NoDup; [| exact Hnd]. apply Permutation_map.
    exact HP. }
  destruct (Obj.get k l) as [v |] eqn:E.
  - symmetry. apply In_get; [exact Hnd' |].
    eapply Permutation_in; [exact HP |]. apply get_In. exact E.
  - destruct (Obj.get k l') as [v' |] eqn:E'; [| reflexivity].
    apply get_In in E'. apply Permutation_sym in HP.
    apply (Permutation_in _ HP) in E'. apply (In_get _ _ _ Hnd) in E'.
    congruence.
Qed.

Lemma keys_set k (v : V) o x :
  In x (map fst (Obj.set k v o)) -> x = k \/ In x (map fst o).
Proof.
  induction o as [| [k1 v1] o IH]; simpl.
  - intros [<- | []]. left. reflexivity.
  - destruct (String.eqb k1 k) eqn:E; simpl.
    + apply String.eqb_eq in E. subst k1. intros [<- | Hin]; auto.
    + intros [<- | Hin]; [auto |]. destruct (IH Hin); auto.
Qed.

Lemma NoDup_set k (v : V) o :
  List.NoDup (map fst o) -> List.NoDup (map fst (Obj.set k v o)).
Proof.
  induction o as [| [k1 v1] o IH]; simpl; intros Hnd.
  - constructor; [intros [] | constructor].
  - apply List.NoDup_cons_iff in Hnd. destruct Hnd as [Hnotin Hnd].
    destruct (String.eqb k1 k) eqn:E; simpl.
    + apply String.eqb_eq in E. subst k1. constructor; assumption.
    + constructor; [| exact (IH Hnd)].
      intros Hin. apply keys_set in Hin. destruct Hin as [-> | Hin].
      * rewrite String.eqb_refl in E. discriminate.
      * exact (Hnotin Hin).
Qed.

Lemma NoDup_fold_put l o :
  List.NoDup (map fst o) -> List.NoDup (map fst (fold_left Obj.put l o)).
Proof.
  revert o. induction l as [| e l IH]; intros o Hnd; simpl;
    [exact Hnd |].
  apply IH. apply NoDup_set. exact Hnd.
Qed.

Lemma NoDup_fromEntries l : List.NoDup (map fst (Obj.fromEntries l)).
Proof. apply NoDup_fold_put. constructor. Qed.

Lemma NoDup_spread2 (a b : Obj.object V) :
  List.NoDup (map fst (Obj.spread2 a b)).
Proof. apply NoDup_fold_put, NoDup_fold_put. constructor. Qed.

Lemma set_not_nil k (v : V) o : Obj.set k v o <> [].
Proof.
  destruct o as [| [k1 v1] o]; simpl; [discriminate |].
  destruct (String.eqb k1 k); discriminate.
Qed.

Lemma fold_put_not_nil l o : o <> [] -> fold_left Obj.put l o <> [].
Proof.
  revert o. induction l as [| e l IH]; intros o Ho; simpl; [exact Ho |].
  apply IH. apply set_not_nil.
Qed.

(** The enumeration of own properties. *)

Lemma insert_sorted_Permutation (i : N) (e : string * V)
    (s : list (N * (string * V))) :
  Permutation (Obj.insert_sorted i e s) ((i, e) :: s).
Proof.
  induction s as [| [j e'] s IH]; simpl; [reflexivity |].
  destruct (i <? j)%N; [reflexivity |].
  rewrite IH. apply perm_swap.
Qed.

Lemma index_part_Permutation o :
  Permutation (map snd (Obj.index_part o)) (List.filter Obj.is_index o).
Proof.
  induction o as [| e o IH]; simpl; [reflexivity |].
  unfold Obj.is_index at 1.
  destruct (Obj.array_index (fst e)) as [i |]; [| exact IH].
  rewrite insert_sorted_Permutation. simpl. constructor. exact IH.
Qed.

Lemma filter_split (p : string * V -> bool) l :
  Permutation (List.filter p l ++ List.filter (fun e => negb (p e)) l) l.
Proof.
  induction l as [| e l IH]; simpl; [reflexivity |].
  destruct (p e); simpl.
  - constructor. exact IH.
  - symmetry. apply Permutation_cons_app. symmetry. exact IH.
Qed.

Lemma entries_Permutation o : Permutation (Obj.entries o) o.
Proof.
  unfold Obj.entries. rewrite index_part_Permutation. apply filter_split.
Qed.

Lemma entries_nil o : Obj.entries o = [] <-> o = [].
Proof.
  split.
  - intros E. pose proof (entries_Permutation o) as HP. rewrite E in HP.
    apply Permutation_nil in HP. exact HP.
  - intros ->. reflexivity.
Qed.

Lemma NoDup_entries o :
  List.NoDup (map fst o) -> List.NoDup (map fst (Obj.entries o)).
Proof.
  intros Hnd. eapply Permutation_NoDup; [| exact Hnd].
  apply Permutation_map. symmetry. apply entries_Permutation.
Qed.

(** Without array-index keys the enumeration is the creation order. *)
Lemma entries_creation_order o :
  (forall e, In e o -> Obj.array_index (fst e) = None) ->
  Obj.entries o = o.
Proof.
  intros Hno. unfold Obj.entries.
  assert (Hi : Obj.index_part o = []).
  { induction o as [| e o IH]; simpl; [reflexivity |].
    rewrite (Hno e (or_introl eq_refl)). apply IH.
    intros e' He'. apply Hno. right. exact He'. }
  rewrite Hi. simpl.
  induction o as [| e o IH]; simpl; [reflexivity |].
  unfold Obj.is_index at 1. rewrite (Hno e (or_introl eq_refl)). simpl.
  f_equal. apply IH.
  - intros e' He'. apply Hno. right. exact He'.
  - simpl in Hi. rewrite (Hno e (or_introl eq_refl)) in Hi. exact Hi.
Qed.

Lemma NoDup_keys_filter (p : string * V -> bool) l :
  List.NoDup (map fst l) -> List.NoDup (map fst (List.filter p l)).
Proof.
  induction l as [| e l IH]; simpl; intros Hnd; [constructor |].
  apply List.NoDup_cons_iff in Hnd. destruct Hnd as [Hnotin Hnd].
  destruct (p e); simpl; [| exact (IH Hnd)].
  constructor; [| exact (IH Hnd)].
  intros Hin. apply Hnotin. apply in_map_iff in Hin.
  destruct Hin as (e' & <- & He'). apply filter_In in He'.
  apply in_map. exact (proj1 He').
Qed.

Lemma get_fromEntries_last l k :
  Obj.get k (Obj.fromEntries l) = Obj.get k (rev l).
Proof.
  unfold Obj.fromEntries. rewrite get_fold_put. simpl.
  destruct (Obj.get k (rev l)); reflexivity.
Qed.

Lemma get_fromEntries_In l k (v : V) :
  List.NoDup (map fst l) -> In (k, v) l ->
  Obj.get k (Obj.fromEntries l) = Some v.
Proof.
  intros Hnd Hin. rewrite get_fromEntries_last. apply In_get.
  - rewrite map_rev. apply List.NoDup_rev. exact Hnd.
  - apply in_rev. rewrite rev_involutive. exact Hin.
Qed.

Lemma get_rev_entries o k :
  List.NoDup (map fst o) -> Obj.get k (rev (Obj.entries o)) = Obj.get k o.
Proof.
  intros Hnd. symmetry. apply get_Permutation; [exact Hnd |].
  rewrite <- Permutation_rev. symmetry. apply entries_Permutation.
Qed.

(** In [{...a, ...b}] the properties of [b] win. *)
Lemma get_spread2 (a b : Obj.object V) k :
  List.NoDup (map fst a) -> List.NoDup (map fst b) ->
  Obj.get k (Obj.spread2 a b) =
    match Obj.get k b with
    | Some v => Some v
    | None => Obj.get k a
    end.
Proof.
  intros Ha Hb. unfold Obj.spread2.
  rewrite !get_fold_put, !get_rev_entries by assumption. simpl.
  destruct (Obj.get k b); [reflexivity |].
  destruct (Obj.get k a); reflexivity.
Qed.

Lemma spread2_nil_r (a : Obj.object V) :
  Obj.spread2 a [] = [] <-> a = [].
Proof.
  unfold Obj.spread2. simpl. split.
  - intros E. destruct (Obj.entries a) as [| e l] eqn:Ee.
    + apply entries_nil. exact Ee.
    + simpl in E. exfalso. revert E. apply fold_put_not_nil.
      apply set_not_nil.
  - intros ->. reflexivity.
Qed.

Lemma values_nil o : Obj.values o = [] <-> o = [].
Proof.
  unfold Obj.values. split.
  - intros E. apply map_eq_nil in E. apply entries_nil. exact E.
  - intros ->. reflexivity.
Qed.

End ObjectFacts.

(** ** Numbers *)

Lemma or_zero_not_NaN (x : option number) : Num.or_zero x <> NaN.
Proof.
  destruct x as [[| | z |] |]; simpl; try discriminate.
  destruct (z =? 0); discriminate.
Qed.

Lemma gt_irrefl (a : number) : Num.gt a a = false.
Proof. destruct a; simpl; try reflexivity. apply Z.ltb_irrefl. Qed.

Lemma gt_false_trans (a b c : number) :
  b <> NaN -> Num.gt b a = false -> Num.gt c b = false -> Num.gt c a = false.
Proof.
  destruct a, b, c; simpl; intros Hb H1 H2;
    try reflexivity; try discriminate; try contradiction.
  apply Z.ltb_ge. apply Z.ltb_ge in H1, H2. lia.
Qed.

Lemma gt_true_false (a b : number) : Num.gt a b = true -> Num.gt b a = false.
Proof.
  destruct a, b; simpl; intros Hab; try reflexivity; try discriminate.
  apply Z.ltb_ge. apply Z.ltb_lt in Hab. lia.
Qed.

(** ** The cookie jar *)

Arguments ensureReady : simpl never.
Arguments getCookies : simpl never.
Arguments saveCookies : simpl never.

Section JarTheorems.
Context `{Platform}.

Lemma writes_app (t t' : list Call) : writes (t ++ t') = writes t ++ writes t'.
Proof.
  induction t as [| [X e] t IH]; simpl; [reflexivity |].
  destruct e; simpl; rewrite ?IH; reflexivity.
Qed.

Lemma later_choice (a b : Entry) :
  (later a b = a \/ later a b = b)
  /\ Num.gt (Num.or_zero (e_expires a)) (Num.or_zero (e_expires (later a b)))
     = false
  /\ Num.gt (Num.or_zero (e_expires b)) (Num.or_zero (e_expires (later a b)))
     = false.
Proof.
  unfold later.
  destruct (Num.gt (Num.or_zero (e_expires a)) (Num.or_zero (e_expires b)))
    eqn:E.
  - split; [left; reflexivity |]. split; [apply gt_irrefl |].
    apply gt_true_false. exact E.
  - split; [right; reflexivity |]. split; [exact E | apply gt_irrefl].
Qed.

(** The entry [reduce] ends on is one of the entries, and none has a
    greater [expires || 0]. *)
Lemma fold_later_greatest (others : list Entry) (first : Entry) :
  In (fold_left later others first) (first :: others)
  /\ forall x, In x (first :: others) ->
       Num.gt (Num.or_zero (e_expires x))
              (Num.or_zero (e_expires (fold_left later others first)))
       = false.
Proof.
  revert first. induction others as [| b others IH]; intros first; simpl.
  - split; [left; reflexivity |]. intros x [<- | []]. apply gt_irrefl.
  - destruct (IH (later first b)) as [Hin Hmax].
    destruct (later_choice first b) as [Hc [Hf Hb]].
    split.
    + destruct Hin as [Heq | Hin]; [| right; right; exact Hin].
      rewrite <- Heq. destruct Hc as [-> | ->]; [left | right; left];
        reflexivity.
    + intros x [<- | [<- | Hx]].
      * eapply gt_false_trans; [apply or_zero_not_NaN | | exact Hf].
        apply Hmax. left. reflexivity.
      * eapply gt_false_trans; [apply or_zero_not_NaN | | exact Hb].
        apply Hmax. left. reflexivity.
      * apply Hmax. right. exact Hx.
Qed.

Lemma ttl_of_or_zero (now : Z) (x : option number) :
  ttl_of now x =
    if Num.truthy (Num.or_zero x)
    then Num.max (Num.sub (Num.or_zero x) (Fin now)) (Fin 0)
    else PosInf.
Proof.
  destruct x as [x |]; simpl; [| reflexivity].
  destruct (Num.truthy x) eqn:E; simpl; [rewrite E |]; reflexivity.
Qed.

Lemma run_ensureReady {S : Type} (h : Handler S) (s : S) :
  exists s' t, run h ensureReady s = (Ok tt, s', t) /\ writes t = [].
Proof.
  unfold ensureReady, perform. simpl.
  destruct (h bool CacheIsReady s) as [ready s1]. destruct ready; simpl.
  - exists s1, [MkCall CacheIsReady]. split; reflexivity.
  - destruct (h unit CacheStart s1) as [[] s2].
    exists s2, [MkCall CacheIsReady; MkCall CacheStart].
    split; reflexivity.
Qed.

Lemma run_getCookies {S : Type} (h : Handler S) (s : S) (now : Z)
    (credentials : RequestCredentials) (u : string) :
  exists old s' t,
    run h (getCookies now credentials u) s = (Ok old, s', t)
    /\ writes t = [] /\ List.NoDup (map fst old).
Proof.
  assert (Hempty : exists old s' t,
            run h (Ret (R := Collection) []) s = (Ok old, s', t)
            /\ writes t = [] /\ List.NoDup (map fst old)).
  { exists [], s, []. repeat split. constructor. }
  assert (Hread : exists old s' t,
    run h (let* _ := ensureReady in
           let* value := perform (CacheGet (URL_origin u) "cookies") in
           match value with
           | None => Ret []
           | Some _cookies =>
               Ret (Obj.fromEntries
                      (List.filter (retained now) (Obj.entries _cookies)))
           end) s = (Ok old, s', t)
    /\ writes t = [] /\ List.NoDup (map fst old)).
  { rewrite run_bind.
    destruct (run_ensureReady h s) as (s1 & t1 & -> & Ht1).
    unfold perform. simpl.
    destruct (h _ (CacheGet (URL_origin u) "cookies") s1) as [value s2].
    destruct value as [item |]; simpl.
    - eexists _, s2, _. split; [reflexivity |].
      rewrite writes_app, Ht1. split; [reflexivity |].
      apply NoDup_fromEntries.
    - eexists _, s2, _. split; [reflexivity |].
      rewrite writes_app, Ht1. split; [reflexivity | constructor]. }
  unfold getCookies. destruct credentials; assumption.
Qed.

(** What [saveCookies] writes: at most one item, under the origin of the
    response, with the TTL of the entry [reduce] ends on. *)
Lemma saveCookies_writes {S : Type} (h : Handler S) (s : S) (now : Z)
    (response : Response) (segment : string) (item : Collection)
    (ttl : number) :
  In (segment, item, ttl) (writes (snd (run h (saveCookies now response) s)))
  ->
  segment = URL_origin (res_url response)
  /\ exists first others,
       Obj.values item = first :: others
       /\ ttl = ttl_of now (e_expires (fold_left later others first)).
Proof.
  unfold saveCookies. rewrite run_bind.
  destruct (run_getCookies h s now include (res_url response))
    as (old & s1 & t1 & -> & Ht1 & _).
  rewrite run_bind.
  destruct (mapM _ (res_getSetCookie response)) as [parsed | e]; cbn.
  - destruct (Obj.values (Obj.spread2 old (Obj.fromEntries parsed)))
      as [| first others] eqn:Ev; cbn.
    + rewrite app_nil_r, Ht1. intros [].
    + rewrite run_bind.
      destruct (run_ensureReady h s1) as (s2 & t2 & -> & Ht2).
      unfold perform. simpl.
      destruct (h _ _ s2) as [[] s3]. simpl.
      rewrite !writes_app, Ht1, Ht2. simpl.
      intros [[= <- <- <-] | []]. split; [reflexivity |].
      exists first, others. split; [exact Ev | reflexivity].
  - rewrite app_nil_r, Ht1. intros [].
Qed.

(** Parsing never raises. *)

Lemma split_not_nil (sep : ascii) (s : string) : Str.split sep s <> [].
Proof.
  destruct s as [| c s]; simpl; [discriminate |].
  destruct (Ascii.eqb c sep); [discriminate |].
  destruct (Str.split sep s); discriminate.
Qed.

Lemma deseralizeOption_ok (opt : string) :
  exists p, deseralizeOption opt = Ok p.
Proof.
  unfold deseralizeOption.
  destruct (Str.split "=" opt) as [| name rest] eqn:E.
  - exfalso. exact (split_not_nil _ _ E).
  - simpl. eexists. reflexivity.
Qed.

Lemma mapM_ok {A B : Type} (f : A -> result B) (l : list A) :
  (forall a, exists b, f a = Ok b) -> exists bs, mapM f l = Ok bs.
Proof.
  intros Hf. induction l as [| a l [bs IH]]; simpl.
  - exists []. reflexivity.
  - destruct (Hf a) as [b ->]. rewrite IH. simpl. eexists. reflexivity.
Qed.

Lemma deseralizeCookie_ok (now : Z) (cookie : string) :
  exists c, deseralizeCookie now cookie = Ok c.
Proof.
  unfold deseralizeCookie.
  destruct (Str.uncons (Str.split "=" cookie)) as [name rest].
  destruct (Str.uncons (Str.split ";" (Str.join "=" rest)))
    as [value _options].
  destruct (mapM_ok deseralizeOption _options deseralizeOption_ok)
    as [pairs ->].
  simpl. eexists. reflexivity.
Qed.

Lemma setCookieEntry_ok (now : Z) (cookie : string) :
  exists e, setCookieEntry now cookie = Ok e.
Proof.
  unfold setCookieEntry.
  destruct (deseralizeCookie_ok now cookie) as [c ->].
  simpl. eexists. reflexivity.
Qed.

(** [saveCookies] against the reference cache. *)
Lemma after_saveCookies (w : Reference.World) (now : Z)
    (response : Response) (parsed : list (string * Entry)) :
  mapM (setCookieEntry now) (res_getSetCookie response) = Ok parsed ->
  let key := (URL_origin (res_url response), "cookies") in
  let old :=
    match Reference.w_store w !! key with
    | Some (item, _) =>
        Obj.fromEntries (List.filter (retained now) (Obj.entries item))
    | None => []
    end in
  let cookies := Obj.spread2 old (Obj.fromEntries parsed) in
  cookies <> [] ->
  exists ttl,
    Reference.w_store (Reference.after (saveCookies now response) w)
    = <[key := (cookies, ttl)]> (Reference.w_store w).
Proof.
  intros Hparsed key old cookies Hne.
  assert (Hv : exists first others, Obj.values cookies = first :: others).
  { destruct (Obj.values cookies) as [| first others] eqn:Ev.
    - apply values_nil in Ev. contradiction.
    - eauto. }
  destruct Hv as (first & others & Hv).
  exists (ttl_of now (e_expires (fold_left later others first))).
  destruct (Reference.w_store w !! key) as [[item ttl0] |] eqn:Eget;
    subst cookies old key;
    unfold Reference.after, saveCookies, getCookies, ensureReady, perform;
    rewrite Hparsed;
    destruct (Reference.w_ready w) eqn:Eready;
    do 5 (cbn [run bind lift fst snd fmap option_fmap option_map
                   Reference.handle Reference.with_ready
                   Reference.with_store Reference.w_store
                   Reference.w_ready];
            rewrite ?Eready, ?Eget, ?Hv);
    reflexivity.
Qed.


(** C2, as amended.  Every item [saveCookies] writes has entries, and its
    TTL comes from the greatest [expires || 0] among them, [m]: unbounded
    when [m] is [0], and [max(m - now, 0)] otherwise. *)
Theorem saveCookies_ttl {S : Type} (h : Handler S) (s : S) (now : Z)
    (response : Response) (segment : string) (item : Collection)
    (ttl : number) :
  In (segment, item, ttl) (writes (snd (run h (saveCookies now response) s)))
  ->
  exists m : number,
    In m (map (fun e => Num.or_zero (e_expires e)) (Obj.values item))
    /\ (forall x,
          In x (map (fun e => Num.or_zero (e_expires e)) (Obj.values item))
          -> Num.gt x m = false)
    /\ ttl = if Num.truthy m
             then Num.max (Num.sub m (Fin now)) (Fin 0)
             else PosInf.
Proof.
  intros Hin. apply saveCookies_writes in Hin.
  destruct Hin as (_ & first & others & Hv & ->).
  destruct (fold_later_greatest others first) as [Hmem Hmax].
  exists (Num.or_zero (e_expires (fold_left later others first))).
  rewrite Hv. split; [| split].
  - apply in_map with (f := fun e => Num.or_zero (e_expires e)).
    exact Hmem.
  - intros x Hx. apply in_map_iff in Hx. destruct Hx as (e & <- & He).
    apply Hmax. exact He.
  - apply ttl_of_or_zero.
Qed.

(** C5, as amended.  For a response without [Set-Cookie] headers,
    [saveCookies] stops after reading the jar when the read yields no
    cookie; when it yields some, they are written back under the origin
    with a TTL computed anew. *)
Theorem saveCookies_no_headers {S : Type} (h : Handler S) (s s1 : S)
    (now : Z) (response : Response) (old : Collection) (t1 : list Call) :
  res_getSetCookie response = [] ->
  run h (getCookies now include (res_url response)) s = (Ok old, s1, t1) ->
  (old = [] -> run h (saveCookies now response) s = (Ok tt, s1, t1))
  /\ (old <> [] ->
      exists ttl,
        writes (snd (run h (saveCookies now response) s))
        = [(URL_origin (res_url response), Obj.spread2 old [], ttl)]).
Proof.
  intros Hnone Hget.
  destruct (run_getCookies h s now include (res_url response))
    as (old' & s1' & t1' & Hget' & Ht1 & _).
  rewrite Hget in Hget'. injection Hget' as <- <- <-.
  unfold saveCookies. rewrite run_bind, Hget, Hnone.
  cbn [mapM lift bind]. split.
  - intros ->. cbn. rewrite app_nil_r. reflexivity.
  - intros Hne.
    destruct (Obj.values (Obj.spread2 old [])) as [| first others] eqn:Ev.
    + apply (proj1 (values_nil _)) in Ev.
      apply (proj1 (spread2_nil_r _)) in Ev. contradiction.
    + exists (ttl_of now (e_expires (fold_left later others first))).
      change (Obj.fromEntries []) with (@nil (string * Entry)).
      rewrite Ev. rewrite run_bind.
      destruct (run_ensureReady h s1) as (s2 & t2 & -> & Ht2).
      unfold perform. cbn. destruct (h _ _ s2) as [[] s3]. cbn.
      rewrite !writes_app, Ht1, Ht2. reflexivity.
Qed.

(** Cookies without attributes, against a cache that gives back what was
    last set whatever the TTL: after saving [a=1] and later [b=2] for the
    same origin, the stored jar holds both; and in every save, the last
    header read for a name is the entry stored under that name. *)
Theorem saveCookies_merges (w : Reference.World) (now1 now2 : Z)
    (u : string) (status1 status2 : Z) :
  (let first := {| res_url := u; res_getSetCookie := ["a=1"];
                   res_status := status1 |} in
   let second := {| res_url := u; res_getSetCookie := ["b=2"];
                    res_status := status2 |} in
   exists item ttl,
     Reference.w_store
       (Reference.after (saveCookies now2 second)
          (Reference.after (saveCookies now1 first) w))
     !! (URL_origin u, "cookies") = Some (item, ttl)
     /\ Obj.get "a" item = Some (Reference.session "1")
     /\ Obj.get "b" item = Some (Reference.session "2"))
  /\ forall response : Response,
     exists parsed,
       mapM (setCookieEntry now1) (res_getSetCookie response) = Ok parsed
       /\ forall (name : string) (e : Entry),
            Obj.get name (rev parsed) = Some e ->
            exists item ttl,
              Reference.w_store
                (Reference.after (saveCookies now1 response) w)
              !! (URL_origin (res_url response), "cookies")
              = Some (item, ttl)
              /\ Obj.get name item = Some e.
Proof.
  assert (Hwins : forall (w0 : Reference.World) now response parsed name e,
    mapM (setCookieEntry now) (res_getSetCookie response) = Ok parsed ->
    Obj.get name (Obj.fromEntries parsed) = Some e ->
    exists old ttl,
      List.NoDup (map fst old)
      /\ old = match Reference.w_store w0
                     !! (URL_origin (res_url response), "cookies") with
               | Some (item, _) =>
                   Obj.fromEntries
                     (List.filter (retained now) (Obj.entries item))
               | None => []
               end
      /\ Reference.w_store (Reference.after (saveCookies now response) w0)
         !! (URL_origin (res_url response), "cookies")
         = Some (Obj.spread2 old (Obj.fromEntries parsed), ttl)
      /\ Obj.get name (Obj.spread2 old (Obj.fromEntries parsed)) = Some e).
  { intros w0 now response parsed name e Hparsed Hget.
    pose proof (after_saveCookies w0 now response parsed Hparsed) as Hafter.
    cbv zeta in Hafter.
    set (old := match Reference.w_store w0
                        !! (URL_origin (res_url response), "cookies") with
                | Some (item, _) =>
                    Obj.fromEntries
                      (List.filter (retained now) (Obj.entries item))
                | None => []
                end) in *.
    assert (Hold : List.NoDup (map fst old)).
    { subst old. destruct (Reference.w_store w0 !! _) as [[item ?] |].
      - apply NoDup_fromEntries.
      - constructor. }
    assert (Hname :
      Obj.get name (Obj.spread2 old (Obj.fromEntries parsed)) = Some e).
    { rewrite get_spread2, Hget; [reflexivity | exact Hold |].
      apply NoDup_fromEntries. }
    destruct Hafter as [ttl Hstore].
    { intros E. rewrite E in Hname. discriminate. }
    exists old, ttl. split; [exact Hold |]. split; [reflexivity |].
    split; [| exact Hname].
    rewrite Hstore. apply lookup_insert_eq. }
  split.
  - cbv zeta.
    destruct (Hwins w now1
                {| res_url := u; res_getSetCookie := ["a=1"];
                   res_status := status1 |}
                [("a", Reference.session "1")] "a" (Reference.session "1")
                eq_refl eq_refl)
      as (old1 & ttl1 & Hold1 & _ & Hstore1 & Ha1).
    destruct (Hwins (Reference.after
                       (saveCookies now1
                          {| res_url := u; res_getSetCookie := ["a=1"];
                             res_status := status1 |}) w) now2
                {| res_url := u; res_getSetCookie := ["b=2"];
                   res_status := status2 |}
                [("b", Reference.session "2")] "b" (Reference.session "2")
                eq_refl eq_refl)
      as (old2 & ttl2 & Hold2 & Hdef2 & Hstore2 & Hb2).
    cbn [res_url] in *.
    exists (Obj.spread2 old2 (Obj.fromEntries [("b", Reference.session "2")])),
           ttl2.
    split; [exact Hstore2 |]. split; [| exact Hb2].
    rewrite get_spread2; [| exact Hold2 | apply NoDup_fromEntries].
    cbn [Obj.get Obj.fromEntries fold_left Obj.put Obj.set fst snd
           String.eqb Ascii.eqb Bool.eqb].
    rewrite Hdef2, Hstore1.
    apply get_fromEntries_In.
    + apply NoDup_keys_filter, NoDup_entries, NoDup_spread2.
    + apply filter_In. split; [| reflexivity].
      eapply Permutation_in;
        [symmetry; apply entries_Permutation | apply get_In; exact Ha1].
  - intros response.
    destruct (mapM_ok (setCookieEntry now1) (res_getSetCookie response)
                (setCookieEntry_ok now1)) as [parsed Hparsed].
    exists parsed. split; [exact Hparsed |].
    intros name e Hlast.
    destruct (Hwins w now1 response parsed name e Hparsed)
      as (old & ttl & _ & _ & Hstore & Hname).
    { rewrite get_fromEntries_last. exact Hlast. }
    eauto.
Qed.

End JarTheorems.

(** ** The cookie model *)

Section CookieTheorems.
Context `{Platform}.

Lemma insert_sorted_Sorted {V : Type} (i : N) (e : string * V)
    (s : list (N * (string * V))) :
  Sorted (fun a b => (fst a <= fst b)%N) s ->
  Sorted (fun a b => (fst a <= fst b)%N) (Obj.insert_sorted i e s).
Proof.
  induction s as [| [j e'] s IH]; simpl; intros Hs.
  - repeat constructor.
  - destruct (N.ltb_spec i j) as [Hlt | Hge].
    + constructor; [exact Hs |]. constructor. simpl. lia.
    + apply Sorted_inv in Hs. destruct Hs as [Hs Hhd].
      constructor; [exact (IH Hs) |].
      destruct s as [| [j' e''] s]; simpl.
      * constructor. simpl. exact Hge.
      * destruct (i <? j')%N; constructor; simpl.
        -- exact Hge.
        -- apply HdRel_inv in Hhd. exact Hhd.
Qed.

Lemma index_part_Sorted {V : Type} (o : Obj.object V) :
  Sorted (fun a b => (fst a <= fst b)%N) (Obj.index_part o).
Proof.
  induction o as [| e o IH]; simpl; [constructor |].
  destruct (Obj.array_index (fst e)); [| exact IH].
  apply insert_sorted_Sorted. exact IH.
Qed.

Lemma index_part_keys {V : Type} (o : Obj.object V) (i : N)
    (e : string * V) :
  In (i, e) (Obj.index_part o) -> Obj.array_index (fst e) = Some i.
Proof.
  induction o as [| e' o IH]; simpl; [contradiction |].
  destruct (Obj.array_index (fst e')) as [j |] eqn:E; [| exact IH].
  intros Hin.
  apply (Permutation_in _ (insert_sorted_Permutation j e' _)) in Hin.
  destruct Hin as [[= <- <-] | Hin]; [exact E | exact (IH Hin)].
Qed.

Lemma index_part_map {V : Type} (g : V -> V) (o : Obj.object V) :
  Obj.index_part (map (fun e => (fst e, g (snd e))) o)
  = map (fun ie => (fst ie, (fst (snd ie), g (snd (snd ie)))))
      (Obj.index_part o).
Proof.
  induction o as [| e o IH]; simpl; [reflexivity |].
  destruct (Obj.array_index (fst e)) as [i |]; [| exact IH].
  rewrite IH. generalize (Obj.index_part o) as s.
  induction s as [| [j e'] s IHs]; simpl; [reflexivity |].
  destruct (i <? j)%N; simpl; [reflexivity |]. rewrite IHs. reflexivity.
Qed.

Lemma entries_map {V : Type} (g : V -> V) (o : Obj.object V) :
  Obj.entries (map (fun e => (fst e, g (snd e))) o)
  = map (fun e => (fst e, g (snd e))) (Obj.entries o).
Proof.
  unfold Obj.entries. rewrite index_part_map, map_app, !map_map.
  f_equal.
  induction o as [| e o IH]; simpl; [reflexivity |].
  unfold Obj.is_index in *. simpl.
  destruct (Obj.array_index (fst e)); simpl; rewrite IH; reflexivity.
Qed.

(** C9, as amended.  [serializeCookies] joins the [name=value] pairs with
    ["; "] in the order the object enumerates its properties: the names
    that are array indices first, by ascending index, then the other names
    in insertion order; so a collection without such names is written in
    insertion order.  The text depends on names and values only: changing
    [expires] or [options] of the entries does not change it. *)
Theorem serializeCookies_order (cookies : Collection) :
  (exists indexed : list (N * (string * Entry)),
     serializeCookies cookies
     = Spec.serializeCollection
         (map snd indexed
          ++ List.filter (fun e => negb (Obj.is_index e)) cookies)
     /\ Sorted (fun a b => (fst a <= fst b)%N) indexed
     /\ (forall i e, In (i, e) indexed -> Obj.array_index (fst e) = Some i)
     /\ Permutation (map snd indexed) (List.filter Obj.is_index cookies))
  /\ ((forall e, In e cookies -> Obj.array_index (fst e) = None) ->
      serializeCookies cookies = Spec.serializeCollection cookies)
  /\ (forall g : Entry -> Entry,
        (forall e, e_value (g e) = e_value e) ->
        serializeCookies (map (fun e => (fst e, g (snd e))) cookies)
        = serializeCookies cookies).
Proof.
  split; [| split].
  - exists (Obj.index_part cookies). split; [reflexivity |].
    split; [apply index_part_Sorted |].
    split; [apply index_part_keys | apply index_part_Permutation].
  - intros Hno. unfold serializeCookies.
    rewrite (entries_creation_order cookies Hno). reflexivity.
  - intros g Hg. unfold serializeCookies. rewrite entries_map, map_map.
    f_equal. apply map_ext. intros e. simpl. rewrite Hg. reflexivity.
Qed.

Lemma truthy_nonempty (v : string) :
  v <> EmptyString -> Str.truthy (Some v) = true.
Proof. destruct v; [contradiction | reflexivity]. Qed.

End CookieTheorems.

(** What [getCookies] hands out of a stored item: the entries that pass
    [retained], that is, those whose [expires] is [null], [0] or [NaN], and
    those whose [expires] is at or before [now]. *)
Lemma getCookies_retained (now : Z) (item : Collection) (k : string)
    (e : Entry) :
  List.NoDup (map fst item) ->
  Obj.get k (Obj.fromEntries (List.filter (retained now) (Obj.entries item)))
  = Some e
  <-> Obj.get k item = Some e /\ retained now (k, e) = true.
Proof.
  intros Hnd. split.
  - intros Hget. rewrite get_fromEntries_last in Hget.
    apply get_In, in_rev, filter_In in Hget. destruct Hget as [Hin Hret].
    split; [| exact Hret]. apply In_get; [exact Hnd |].
    eapply Permutation_in; [apply entries_Permutation | exact Hin].
  - intros [Hget Hret]. apply get_fromEntries_In.
    + apply NoDup_keys_filter, NoDup_entries. exact Hnd.
    + apply filter_In. split; [| exact Hret].
      eapply Permutation_in;
        [symmetry; apply entries_Permutation | apply get_In; exact Hget].
Qed.

Lemma retained_dated (now : Z) (k v : string) (x : number)
    (o : Obj.object (option string)) :
  Num.truthy x = true ->
  retained now (k, {| e_value := v; e_expires := Some x; e_options := o |})
  = Num.le x (Fin now).
Proof. intros Hx. unfold retained. simpl. rewrite Hx. reflexivity. Qed.

(** ** The program on the reference world *)

Section Examples.
Import Reference.
#[local] Existing Instance platform.

(** C1, on an example.  At time 2000 the jar holds [a], expired at 1000,
    [b], valid until 3000, and the session cookie [c].  [getCookies]
    returns [a] and [c]; the entries that are not expired are [b] and
    [c]. *)
Theorem getCookies_keeps_expired :
  let jar := [("a", until "1" 1000); ("b", until "2" 3000);
              ("c", session "3")] in
  fst (fst (run handle (getCookies 2000 include url)
              (world (Some jar) "246810")))
  = Ok [("a", until "1" 1000); ("c", session "3")]
  /\ List.filter (Spec.valid_at 2000) jar
     = [("b", until "2" 3000); ("c", session "3")].
Proof. vm_compute. split; reflexivity. Qed.

(** C2 fails as stated: two cookies that live 5 and 9 seconds are saved at
    time 1000; the item is written with a TTL of 9000, the longer of the
    two lives, where the minimum asked for is 5000. *)
Lemma saveCookies_ttl_counterexample :
  exists item ttl,
    writes (snd (run handle
                   (saveCookies 1000
                      (a_response ["a=1; Max-Age=5"; "b=2; Max-Age=9"]))
                   (world None "246810")))
    = [(origin, item, ttl)]
    /\ ttl = Fin 9000
    /\ Spec.ttl 1000 item = Fin 5000
    /\ ttl <> Spec.ttl 1000 item.
Proof.
  eexists _, _. split; [vm_compute; reflexivity |].
  split; [reflexivity |]. split; [vm_compute; reflexivity |].
  vm_compute. discriminate.
Qed.

Lemma saveCookies_ttl_witness :
  exists m : number,
    In m (map (fun e => Num.or_zero (e_expires e))
            (Obj.values
               [("a", {| e_value := "1"; e_expires := Some (Fin 6000);
                         e_options := [("max-age", Some "5")] |});
                ("b", {| e_value := "2"; e_expires := Some (Fin 10000);
                         e_options := [("max-age", Some "9")] |})]))
    /\ (forall x,
          In x (map (fun e => Num.or_zero (e_expires e))
                  (Obj.values
                     [("a", {| e_value := "1"; e_expires := Some (Fin 6000);
                               e_options := [("max-age", Some "5")] |});
                      ("b", {| e_value := "2";
                               e_expires := Some (Fin 10000);
                               e_options := [("max-age", Some "9")] |})]))
          -> Num.gt x m = false)
    /\ Fin 9000 = if Num.truthy m
                  then Num.max (Num.sub m (Fin 1000)) (Fin 0)
                  else PosInf.
Proof.
  apply (saveCookies_ttl handle (world None "246810") 1000
           (a_response ["a=1; Max-Age=5"; "b=2; Max-Age=9"]) origin).
  vm_compute. left. reflexivity.
Defined.


Lemma cookieInjection_omit_witness :
  run handle
    (cookieInjection 0 {| req_credentials := omit; req_url := url;
                          req_headers := ∅ |})
    (world (Some [("sid", session "1")]) "246810")
  = (Ok {| req_credentials := omit; req_url := url;
           req_headers := <["cookie" := EmptyString]> ∅ |},
     world (Some [("sid", session "1")]) "246810", []).
Proof.
  apply (cookieInjection_omit handle
           (world (Some [("sid", session "1")]) "246810") 0
           {| req_credentials := omit; req_url := url;
              req_headers := ∅ |}).
  reflexivity.
Defined.

(** C5 fails as stated: the jar holds a session cookie and a response
    comes without [Set-Cookie] headers; [saveCookies] writes the jar
    again. *)
Lemma saveCookies_no_headers_counterexample :
  res_getSetCookie (a_response []) = []
  /\ writes (snd (run handle (saveCookies 0 (a_response []))
                    (world (Some [("sid", session "1")]) "246810")))
     = [(origin, [("sid", session "1")], PosInf)]
  /\ writes (snd (run handle (saveCookies 0 (a_response []))
                    (world (Some [("sid", session "1")]) "246810")))
     <> [].
Proof.
  split; [reflexivity |]. split; [vm_compute; reflexivity |].
  vm_compute. discriminate.
Qed.

Lemma saveCookies_no_headers_witness :
  run handle (saveCookies 0 (a_response [])) (world None "246810")
  = (Ok tt, with_ready true (world None "246810"),
     [MkCall CacheIsReady; MkCall CacheStart;
      MkCall (CacheGet origin "cookies")]).
Proof.
  apply (saveCookies_no_headers handle (world None "246810")
           (with_ready true (world None "246810")) 0 (a_response []) []
           [MkCall CacheIsReady; MkCall CacheStart;
            MkCall (CacheGet origin "cookies")]);
    reflexivity.
Defined.

Lemma login_missing_two_factor_witness :
  let c := {| username := "u"; password := "p"; twoFactorSecret := None;
              twoFactorCode := None |} in
  run handle (login c) (world None "123456")
  = (Ok (failure missingTwoFactor needs_factor), world None "123456",
     [MkCall (GetCurrentUser (loginOptions c))])
  /\ List.filter is_verify (snd (run handle (login c) (world None "123456")))
     = [].
Proof.
  apply (login_missing_two_factor handle (world None "123456")
           (world None "123456")
           {| username := "u"; password := "p"; twoFactorSecret := None;
              twoFactorCode := None |} needs_factor ["totp"]);
    reflexivity.
Defined.

Lemma login_code_length_witness :
  let c := {| username := "u"; password := "p"; twoFactorSecret := None;
              twoFactorCode := Some (Ret "12345") |} in
  run handle (login c) (world None "12345")
  = (Ok (failure invalidCode needs_factor), world None "12345",
     [MkCall (GetCurrentUser (loginOptions c))]).
Proof.
  apply (login_code_length handle (world None "12345") (world None "12345")
           (world None "12345")
           {| username := "u"; password := "p"; twoFactorSecret := None;
              twoFactorCode := Some (Ret "12345") |}
           needs_factor ["totp"] (Ret "12345") "12345" []);
    try reflexivity.
  simpl. lia.
Defined.

Lemma saveCookies_merges_witness :
  exists item ttl,
    w_store
      (after (saveCookies 2 (a_response ["b=2"]))
         (after (saveCookies 1 (a_response ["a=1"])) (world None "246810")))
    !! (origin, "cookies") = Some (item, ttl)
    /\ Obj.get "a" item = Some (session "1")
    /\ Obj.get "b" item = Some (session "2").
Proof.
  exact (proj1 (saveCookies_merges (world None "246810") 1 2 url 200 200)).
Defined.

(** The filter of [getCookies] seen from [saveCookies]: a cookie saved
    with an expiry still to come does not pass the read of the next save,
    and the jar written then holds the new cookie alone. *)
Lemma saveCookies_drops_dated :
  fst <$> w_store
            (after (saveCookies 2000 (a_response ["b=2"]))
               (after (saveCookies 1000 (a_response ["a=1; Max-Age=3600"]))
                  (world None "246810")))
          !! (origin, "cookies")
  = Some [("b", session "2")].
Proof. vm_compute. reflexivity. Qed.

(** C4 fails as stated: the request opts out of credentials and comes with
    a [cookie] header of its own; the stage is not skipped, the request
    leaves it with that header replaced by the empty string. *)
Lemma cookieInjection_omit_counterexample :
  let request := {| req_credentials := omit; req_url := url;
                    req_headers := {[ "cookie" := "theme=dark" ]} |} in
  exists request',
    fst (fst (run handle (cookieInjection 0 request) (world None "246810")))
    = Ok request'
    /\ req_headers request !! "cookie" = Some "theme=dark"
    /\ req_headers request' !! "cookie" = Some EmptyString
    /\ request' <> request.
Proof.
  cbv zeta. eexists. split; [vm_compute; reflexivity |].
  split; [vm_compute; reflexivity |]. split; [vm_compute; reflexivity |].
  intros E. apply (f_equal (fun r => req_headers r !! "cookie")) in E.
  vm_compute in E. discriminate.
Qed.

(** C7, on an example, with a cache that lets entries die at the end of
    their TTL.  At time 1000 a response sets [a=1] for an hour; at time
    2000 the cache still gives the jar with [a] back, and [a] is not
    expired; a response then sets [b=2], and the jar written holds [b]
    alone: [a] was left out by the filter of [getCookies]. *)
Theorem saveCookies_loses_dated :
  let a := {| e_value := "1"; e_expires := Some (Fin 3601000);
              e_options := [("max-age", Some "3600")] |} in
  let w1 := snd (fst (run (expiring 1000)
                        (saveCookies_url 1000
                           (a_response ["a=1; Max-Age=3600"]))
                        (world None "246810"))) in
  let w2 := snd (fst (run (expiring 2000)
                        (saveCookies_url 2000 (a_response ["b=2"])) w1)) in
  fst (expiring 2000 _ (CacheGet origin "cookies") w1) = Some [("a", a)]
  /\ Spec.valid_at 2000 ("a", a) = true
  /\ fst (expiring 2000 _ (CacheGet origin "cookies") w2)
     = Some [("b", session "2")].
Proof. vm_compute. repeat split; reflexivity. Qed.

(** C8 fails as stated: a [max-age] that is not a number gives [NaN], not
    [null], and the [expires] attribute beside it is not used. *)
Lemma deseralizeCookie_counterexample :
  (exists c,
     deseralizeCookie 0 "a=1; max-age=abc" = Ok c
     /\ expires c = Some NaN
     /\ Spec.expiresAt 0 (options c) = None
     /\ expires c <> Spec.expiresAt 0 (options c))
  /\ (exists c,
        deseralizeCookie 0
          "a=1; max-age=abc; expires=Thu, 01 Jan 1970 00:00:10 GMT" = Ok c
        /\ expires c = Some NaN
        /\ Spec.expiresAt 0 (options c) = Some (Fin 10000)
        /\ expires c <> Spec.expiresAt 0 (options c)).
Proof.
  split; eexists; (split; [vm_compute; reflexivity |]);
    (split; [reflexivity |]); (split; [vm_compute; reflexivity |]);
    vm_compute; discriminate.
Qed.

(** C9 fails as stated: [b] is inserted before [1], and [1] is written
    first. *)
Lemma serializeCookies_counterexample :
  let inserted := [("b", session "x"); ("1", session "y")] in
  serializeCookies (Obj.fromEntries inserted) = "1=y; b=x"
  /\ Spec.serializeCollection inserted = "b=x; 1=y"
  /\ serializeCookies (Obj.fromEntries inserted)
     <> Spec.serializeCollection inserted
  /\ req_headers
       (match
          fst (fst (run handle (cookieInjection 0 a_request)
                      (after (saveCookies 0 (a_response ["b=x"; "1=y"]))
                         (world None "246810"))))
        with
        | Ok request => request
        | Raise _ => a_request
        end) !! "cookie" = Some "1=y; b=x".
Proof.
  cbv zeta. split; [vm_compute; reflexivity |].
  split; [vm_compute; reflexivity |].
  split; [vm_compute; discriminate |].
  vm_compute. reflexivity.
Qed.

Lemma serializeCookies_order_witness :
  serializeCookies [("sid", session "1"); ("auth", session "2")]
  = Spec.serializeCollection [("sid", session "1"); ("auth", session "2")].
Proof.
  apply (proj1 (proj2 (serializeCookies_order
                         [("sid", session "1"); ("auth", session "2")]))).
  intros e [<- | [<- | []]]; reflexivity.
Defined.

End Examples.

(** * Further properties of the program *)

(** ** Splitting and trimming *)

Lemma split_prefix (sep : ascii) (n r : string) :
  includes sep n = false ->
  Str.split sep (n +:+ String sep r) = n :: Str.split sep r.
Proof.
  induction n as [| c n IH]; simpl; intros Hn.
  - rewrite Ascii.eqb_refl. reflexivity.
  - apply orb_false_iff in Hn. destruct Hn as [Hc Hn].
    rewrite Hc, (IH Hn). reflexivity.
Qed.

Lemma split_none (sep : ascii) (s : string) :
  includes sep s = false -> Str.split sep s = [s].
Proof.
  induction s as [| c s IH]; simpl; intros Hs; [reflexivity |].
  apply orb_false_iff in Hs. destruct Hs as [Hc Hs].
  rewrite Hc, (IH Hs). reflexivity.
Qed.

Lemma join_split (sep : ascii) (s : string) :
  Str.join (String sep EmptyString) (Str.split sep s) = s.
Proof.
  unfold Str.join. induction s as [| c s IH]; simpl; [reflexivity |].
  destruct (Ascii.eqb_spec c sep) as [-> | Hne].
  - destruct (Str.split sep s) as [| w ws] eqn:E.
    + exfalso. exact (split_not_nil _ _ E).
    + simpl in *. rewrite IH. reflexivity.
  - destruct (Str.split sep s) as [| w ws] eqn:E.
    + exfalso. exact (split_not_nil _ _ E).
    + simpl in *. destruct ws; simpl in *; rewrite <- IH; reflexivity.
Qed.

Lemma lower_lower (c : ascii) : Str.lower (Str.lower c) = Str.lower c.
Proof. destruct c as [[] [] [] [] [] [] [] []]; reflexivity. Qed.

Lemma white_space_lower (c : ascii) :
  Str.is_white_space (Str.lower c) = Str.is_white_space c.
Proof. destruct c as [[] [] [] [] [] [] [] []]; reflexivity. Qed.

Lemma toLowerCase_idem (s : string) :
  Str.toLowerCase (Str.toLowerCase s) = Str.toLowerCase s.
Proof.
  induction s as [| c s IH]; simpl; [reflexivity |].
  rewrite lower_lower, IH. reflexivity.
Qed.

Lemma trimStart_toLowerCase (s : string) :
  Str.trimStart (Str.toLowerCase s) = Str.toLowerCase (Str.trimStart s).
Proof.
  induction s as [| c s IH]; simpl; [reflexivity |].
  rewrite white_space_lower. destruct (Str.is_white_space c);
    [exact IH | reflexivity].
Qed.

Lemma trimEnd_toLowerCase (s : string) :
  Str.trimEnd (Str.toLowerCase s) = Str.toLowerCase (Str.trimEnd s).
Proof.
  induction s as [| c s IH]; simpl; [reflexivity |].
  rewrite IH, white_space_lower.
  destruct (Str.trimEnd s); simpl;
    [destruct (Str.is_white_space c) |]; reflexivity.
Qed.

Lemma trimEnd_idem (s : string) : Str.trimEnd (Str.trimEnd s) = Str.trimEnd s.
Proof.
  induction s as [| c s IH]; simpl; [reflexivity |].
  destruct (Str.trimEnd s) as [| d t] eqn:E.
  - destruct (Str.is_white_space c) eqn:Ec; simpl; [reflexivity |].
    rewrite Ec. reflexivity.
  - change (Str.trimEnd (String c (String d t)))
      with (match Str.trimEnd (String d t) with
            | EmptyString => if Str.is_white_space c then EmptyString
                             else String c EmptyString
            | u => String c u
            end).
    rewrite IH. reflexivity.
Qed.

Lemma trimEnd_head (c : ascii) (s : string) :
  Str.is_white_space c = false ->
  exists t, Str.trimEnd (String c s) = String c t.
Proof.
  intros Hc. simpl. destruct (Str.trimEnd s) as [| d t].
  - rewrite Hc. eauto.
  - eauto.
Qed.

Lemma trim_idem (s : string) : Str.trim (Str.trim s) = Str.trim s.
Proof.
  unfold Str.trim.
  assert (Hhead : Str.trimStart s = EmptyString
                  \/ exists c t, Str.trimStart s = String c t
                                 /\ Str.is_white_space c = false).
  { induction s as [| c s IH]; simpl; [left; reflexivity |].
    destruct (Str.is_white_space c) eqn:Ec; [exact IH |].
    right. eauto. }
  destruct Hhead as [-> | (c & t & -> & Hc)]; [reflexivity |].
  destruct (trimEnd_head c t Hc) as [u Hu]. rewrite Hu.
  simpl Str.trimStart. rewrite Hc, <- Hu. apply trimEnd_idem.
Qed.

Lemma trim_toLowerCase (s : string) :
  Str.trim (Str.toLowerCase s) = Str.toLowerCase (Str.trim s).
Proof.
  unfold Str.trim. rewrite trimStart_toLowerCase, trimEnd_toLowerCase.
  reflexivity.
Qed.

Section CookieProperties.
Context `{Platform}.

(** X1. Reading back what [serializeCookie] wrote: for a name without
    ["="] and a value without [";"], [deseralizeCookie] gives that name and
    that value, no attribute and no expiry.  The value may hold ["="]. *)
Theorem deseralizeCookie_serializeCookie (now : Z) (n v : string) :
  includes "=" n = false ->
  includes ";" v = false ->
  deseralizeCookie now (serializeCookie n v)
  = Ok {| name := n; value := v; expires := None; options := [] |}.
Proof.
  intros Hn Hv. unfold deseralizeCookie, serializeCookie.
  change ("=" +:+ v) with (String "=" v).
  rewrite (split_prefix "=" n v Hn). cbn [Str.uncons].
  rewrite (join_split "=" v), (split_none ";" v Hv). reflexivity.
Qed.

(** X2. A header [name=value;attributes] is cut at the first ["="] and at
    the first [";"] after it: the name is the text before that ["="] and
    the value the text between the two, whatever the attributes are. *)
Theorem deseralizeCookie_name_value (now : Z) (n v attributes : string) :
  includes "=" n = false ->
  includes ";" v = false ->
  exists c,
    deseralizeCookie now (n +:+ "=" +:+ v +:+ ";" +:+ attributes) = Ok c
    /\ name c = n /\ value c = v.
Proof.
  intros Hn Hv. unfold deseralizeCookie.
  change ("=" +:+ v +:+ ";" +:+ attributes)
    with (String "=" (v +:+ String ";" attributes)).
  rewrite (split_prefix "=" n _ Hn). cbn [Str.uncons].
  rewrite (join_split "="), (split_prefix ";" v attributes Hv).
  cbn [Str.uncons].
  destruct (mapM_ok deseralizeOption (Str.split ";" attributes)
              deseralizeOption_ok) as [pairs ->].
  cbn [result_bind]. eexists. split; [reflexivity |]. split; reflexivity.
Qed.

(** X3. A header without any ["="] becomes a cookie whose name is the whole
    header, attributes included, with an empty value, no attribute and no
    expiry. *)
Theorem deseralizeCookie_no_equals (now : Z) (cookie : string) :
  includes "=" cookie = false ->
  deseralizeCookie now cookie
  = Ok {| name := cookie; value := EmptyString; expires := None;
          options := [] |}.
Proof.
  intros Hc. unfold deseralizeCookie.
  rewrite (split_none "=" cookie Hc). reflexivity.
Qed.

Lemma keys_fold_put {V : Type} (l : list (string * V)) (o : Obj.object V)
    (k : string) :
  In k (map fst (fold_left Obj.put l o)) ->
  In k (map fst l) \/ In k (map fst o).
Proof.
  revert o. induction l as [| e l IH]; intros o; simpl; [auto |].
  intros Hin. destruct (IH _ Hin) as [Hl | Ho]; [auto |].
  unfold Obj.put in Ho. apply keys_set in Ho.
  destruct Ho as [-> | Ho]; auto.
Qed.

Lemma mapM_In {A B : Type} (f : A -> result B) (l : list A) (bs : list B)
    (b : B) :
  mapM f l = Ok bs -> In b bs -> exists a, In a l /\ f a = Ok b.
Proof.
  revert bs. induction l as [| a l IH]; simpl; intros bs Hm Hin.
  - injection Hm as <-. contradiction.
  - destruct (f a) as [b0 |] eqn:Ea; [| discriminate]. simpl in Hm.
    destruct (mapM f l) as [bs0 |]; [| discriminate]. simpl in Hm.
    injection Hm as <-. destruct Hin as [<- | Hin].
    + exists a. auto.
    + destruct (IH bs0 eq_refl Hin) as (a' & Ha' & Hf). exists a'. auto.
Qed.

(** X4. The attribute names kept in [options] are normalised: trimming or
    lower-casing one of them again changes nothing, so an attribute is
    found under its lower-case name however the header spelled it. *)
Theorem deseralizeCookie_option_names (now : Z) (cookie : string)
    (c : Cookie) (k : string) (v : option string) :
  deseralizeCookie now cookie = Ok c ->
  In (k, v) (options c) ->
  Str.toLowerCase k = k /\ Str.trim k = k.
Proof.
  unfold deseralizeCookie.
  destruct (Str.uncons (Str.split "=" cookie)) as [n rest].
  destruct (Str.uncons (Str.split ";" (Str.join "=" rest)))
    as [val _options].
  destruct (mapM deseralizeOption _options) as [pairs |] eqn:Em;
    [| discriminate].
  cbn [result_bind]. intros [= <-]. cbn [options]. intros Hin.
  apply (in_map fst) in Hin. unfold Obj.fromEntries in Hin.
  apply keys_fold_put in Hin. destruct Hin as [Hin | []].
  apply in_map_iff in Hin. destruct Hin as ([k' v'] & Hk & Hin).
  simpl in Hk. subst k'.
  destruct (mapM_In _ _ _ _ Em Hin) as (opt & _ & Hopt).
  unfold deseralizeOption in Hopt.
  destruct (nth_error (Str.split "=" opt) 0) as [raw |]; [| discriminate].
  injection Hopt as <- _. split.
  - apply toLowerCase_idem.
  - rewrite trim_toLowerCase, trim_idem. reflexivity.
Qed.

(** Headers as they are written. *)

Lemma append_empty (s : string) : s +:+ EmptyString = s.
Proof.
  induction s as [| c s IH]; [reflexivity |].
  change (String c s +:+ EmptyString) with (String c (s +:+ EmptyString)).
  f_equal. exact IH.
Qed.

Lemma includes_append (c : ascii) (a b : string) :
  includes c (a +:+ b) = includes c a || includes c b.
Proof.
  induction a as [| d a IH]; simpl; [reflexivity |].
  rewrite IH, orb_assoc. reflexivity.
Qed.

Lemma split_free (sep : ascii) (s p : string) :
  In p (Str.split sep s) -> includes sep p = false.
Proof.
  revert p. induction s as [| c s IH]; simpl; intros p Hin.
  - destruct Hin as [<- | []]. reflexivity.
  - destruct (Ascii.eqb c sep) eqn:Ec.
    + destruct Hin as [<- | Hin]; [reflexivity | exact (IH p Hin)].
    + destruct (Str.split sep s) as [| w ws].
      * destruct Hin as [<- | []]. simpl. rewrite Ec. reflexivity.
      * destruct Hin as [<- | Hin].
        -- simpl. rewrite Ec. apply IH. left. reflexivity.
        -- apply IH. right. exact Hin.
Qed.

Lemma split_keeps_free (d sep : ascii) (s p : string) :
  includes d s = false -> In p (Str.split sep s) -> includes d p = false.
Proof.
  revert p. induction s as [| c s IH]; simpl; intros p Hd Hin.
  - destruct Hin as [<- | []]. reflexivity.
  - apply orb_false_iff in Hd. destruct Hd as [Hc Hd].
    destruct (Ascii.eqb c sep).
    + destruct Hin as [<- | Hin]; [reflexivity | exact (IH p Hd Hin)].
    + destruct (Str.split sep s) as [| w ws].
      * destruct Hin as [<- | []]. simpl. rewrite Hc. reflexivity.
      * destruct Hin as [<- | Hin].
        -- simpl. rewrite Hc. apply (IH w Hd). left. reflexivity.
        -- apply (IH p Hd). right. exact Hin.
Qed.

Lemma join_cons (sep x y : string) (l : list string) :
  Str.join sep (x :: y :: l) = x +:+ sep +:+ Str.join sep (y :: l).
Proof. reflexivity. Qed.

Lemma join_free (d : ascii) (sep : string) (l : list string) :
  includes d sep = false ->
  (forall p, In p l -> includes d p = false) ->
  includes d (Str.join sep l) = false.
Proof.
  intros Hsep. induction l as [| x l IH]; intros Hl; [reflexivity |].
  destruct l as [| y l].
  - apply Hl. left. reflexivity.
  - rewrite join_cons, !includes_append, Hsep, (Hl x (or_introl eq_refl)).
    simpl. apply IH. intros p Hp. apply Hl. right. exact Hp.
Qed.

Ltac break_wf :=
  repeat match goal with
         | Hx : _ && _ = true |- _ =>
             apply andb_true_iff in Hx; destruct Hx
         | Hx : negb _ = true |- _ => apply negb_true_iff in Hx
         end.

Lemma text_free (a : Header.attribute) :
  Header.well_formed a = true -> includes ";" (Header.text a) = false.
Proof.
  unfold Header.well_formed, Header.text.
  destruct a as [n [v |] [m |]]; cbn [Header.a_name Header.a_value
                                       Header.a_more];
    intros Hwf; break_wf; try discriminate;
    rewrite ?includes_append; cbn [includes Ascii.eqb Bool.eqb orb];
    repeat match goal with
           | Hx : includes ";" _ = false |- _ => rewrite Hx
           end;
    reflexivity.
Qed.

Lemma split_tail (s : string) (attrs : list Header.attribute) :
  includes ";" s = false ->
  forallb Header.well_formed attrs = true ->
  Str.split ";" (s +:+ Header.tail attrs) = s :: map Header.text attrs.
Proof.
  revert s.
  induction attrs as [| a attrs IH]; cbn [Header.tail map forallb];
    intros s Hs Hwf.
  - rewrite append_empty. apply split_none. exact Hs.
  - apply andb_true_iff in Hwf. destruct Hwf as [Ha Hwf].
    change (";" +:+ Header.text a +:+ Header.tail attrs)
      with (String ";" (Header.text a +:+ Header.tail attrs)).
    rewrite (split_prefix ";" s _ Hs). f_equal.
    apply IH; [apply text_free; exact Ha | exact Hwf].
Qed.

Lemma deseralizeOption_text (a : Header.attribute) :
  Header.well_formed a = true ->
  deseralizeOption (Header.text a)
  = Ok (Header.normal_name a, Header.a_value a).
Proof.
  unfold Header.well_formed, Header.text, Header.normal_name,
    deseralizeOption.
  destruct a as [n [v |] [m |]]; cbn [Header.a_name Header.a_value
                                       Header.a_more];
    intros Hwf; break_wf; try discriminate.
  - change ("=" +:+ v +:+ "=" +:+ m) with (String "=" (v +:+ String "=" m)).
    rewrite (split_prefix "=" n); [| assumption].
    rewrite (split_prefix "=" v m); [| assumption]. reflexivity.
  - change ("=" +:+ v) with (String "=" v).
    rewrite (split_prefix "=" n); [| assumption].
    rewrite (split_none "=" v); [| assumption]. reflexivity.
  - rewrite (split_none "=" n); [| assumption]. reflexivity.
Qed.

Lemma mapM_map {A B C : Type} (f : B -> result C) (g : A -> B)
    (k : A -> C) (l : list A) :
  (forall a, In a l -> f (g a) = Ok (k a)) ->
  mapM f (map g l) = Ok (map k l).
Proof.
  induction l as [| a l IH]; simpl; intros Hf; [reflexivity |].
  rewrite (Hf a (or_introl eq_refl)). simpl.
  rewrite IH; [reflexivity |]. intros a' Ha'. apply Hf. right. exact Ha'.
Qed.

Lemma get_last_named (k : string) (attrs : list Header.attribute) :
  Obj.get k
    (rev (map (fun a => (Header.normal_name a, Header.a_value a)) attrs))
  = option_map Header.a_value (Header.last_named k attrs).
Proof.
  induction attrs as [| a attrs IH]; simpl; [reflexivity |].
  rewrite get_app, IH. simpl.
  destruct (Header.last_named k attrs); simpl; [reflexivity |].
  destruct (String.eqb (Header.normal_name a) k); reflexivity.
Qed.

Lemma option_value_given (k : string) (attrs : list Header.attribute) :
  option_value k
    (Obj.fromEntries
       (map (fun a => (Header.normal_name a, Header.a_value a)) attrs))
  = Header.given k attrs.
Proof.
  unfold option_value, Header.given.
  rewrite get_fromEntries_last, get_last_named.
  destruct (Header.last_named k attrs); reflexivity.
Qed.

Lemma of_text_text (seg : string) :
  includes ";" seg = false ->
  Header.text (Header.of_text seg) = seg
  /\ Header.well_formed (Header.of_text seg) = true.
Proof.
  intros Hseg. pose proof (join_split "=" seg) as Hjoin.
  assert (Hfree : forall p, In p (Str.split "=" seg) ->
                            includes "=" p = false
                            /\ includes ";" p = false).
  { intros p Hp. split; [exact (split_free _ _ _ Hp) |].
    exact (split_keeps_free _ _ _ _ Hseg Hp). }
  unfold Header.of_text.
  destruct (Str.split "=" seg) as [| n [| v [| m ms]]] eqn:E.
  - exfalso. exact (split_not_nil _ _ E).
  - destruct (Hfree n (or_introl eq_refl)) as [Hn1 Hn2].
    unfold Header.text, Header.well_formed. simpl in *.
    rewrite Hn1, Hn2. auto.
  - destruct (Hfree n (or_introl eq_refl)) as [Hn1 Hn2].
    destruct (Hfree v (or_intror (or_introl eq_refl))) as [Hv1 Hv2].
    unfold Header.text, Header.well_formed.
    cbn [Header.a_name Header.a_value Header.a_more].
    rewrite Hn1, Hn2, Hv1, Hv2. split; [exact Hjoin | reflexivity].
  - destruct (Hfree n (or_introl eq_refl)) as [Hn1 Hn2].
    destruct (Hfree v (or_intror (or_introl eq_refl))) as [Hv1 Hv2].
    unfold Header.text, Header.well_formed.
    cbn [Header.a_name Header.a_value Header.a_more].
    rewrite Hn1, Hn2, Hv1, Hv2.
    rewrite (join_free ";" "=" (m :: ms) eq_refl).
    + split; [| reflexivity]. rewrite <- Hjoin, !join_cons. reflexivity.
    + intros p Hp. apply Hfree. right. right. exact Hp.
Qed.

Lemma join_tail (v : string) (segs : list string) :
  (forall seg, In seg segs -> includes ";" seg = false) ->
  Str.join ";" (v :: segs) = v +:+ Header.tail (map Header.of_text segs)
  /\ forallb Header.well_formed (map Header.of_text segs) = true.
Proof.
  revert v. induction segs as [| seg segs IH]; intros v Hsegs.
  - split; [| reflexivity]. simpl. symmetry. apply append_empty.
  - destruct (of_text_text seg (Hsegs seg (or_introl eq_refl)))
      as [Htext Hwf].
    destruct (IH seg (fun p Hp => Hsegs p (or_intror Hp))) as [Hj Hall].
    split.
    + rewrite join_cons, Hj. cbn [map Header.tail]. rewrite Htext.
      reflexivity.
    + cbn [map forallb]. rewrite Hwf, Hall. reflexivity.
Qed.

Lemma header_decomposition (cookie : string) :
  includes "=" cookie = true ->
  exists n v attrs,
    includes "=" n = false
    /\ includes ";" v = false
    /\ forallb Header.well_formed attrs = true
    /\ cookie = Header.render n v attrs.
Proof.
  intros Hc. pose proof (join_split "=" cookie) as Hjoin.
  destruct (Str.split "=" cookie) as [| n [| r1 rs]] eqn:E.
  - exfalso. exact (split_not_nil _ _ E).
  - exfalso. simpl in Hjoin. subst n.
    assert (Hn : includes "=" cookie = false).
    { apply (split_free "=" cookie). rewrite E. left. reflexivity. }
    congruence.
  - assert (Hn : includes "=" n = false).
    { apply (split_free "=" cookie). rewrite E. left. reflexivity. }
    rewrite join_cons in Hjoin.
    pose proof (join_split ";" (Str.join "=" (r1 :: rs))) as Hr.
    destruct (Str.split ";" (Str.join "=" (r1 :: rs))) as [| v segs] eqn:Es.
    + exfalso. exact (split_not_nil _ _ Es).
    + assert (Hfree : forall p, In p (v :: segs) -> includes ";" p = false).
      { intros p Hp. apply (split_free ";" (Str.join "=" (r1 :: rs))).
        rewrite Es. exact Hp. }
      destruct (join_tail v segs (fun p Hp => Hfree p (or_intror Hp)))
        as [Hj Hall].
      exists n, v, (map Header.of_text segs).
      split; [exact Hn |]. split; [apply Hfree; left; reflexivity |].
      split; [exact Hall |].
      unfold Header.render. rewrite <- Hj, Hr. symmetry. exact Hjoin.
Qed.

Lemma deseralizeCookie_render (now : Z) (n v : string)
    (attrs : list Header.attribute) :
  includes "=" n = false ->
  includes ";" v = false ->
  forallb Header.well_formed attrs = true ->
  deseralizeCookie now (Header.render n v attrs)
  = Ok {| name := n; value := v;
          expires := Header.expiresAt now attrs;
          options :=
            Obj.fromEntries
              (map (fun a => (Header.normal_name a, Header.a_value a))
                 attrs) |}.
Proof.
  intros Hn Hv Hwf. unfold deseralizeCookie, Header.render.
  change ("=" +:+ v +:+ Header.tail attrs)
    with (String "=" (v +:+ Header.tail attrs)).
  rewrite (split_prefix "=" n _ Hn). cbn [Str.uncons].
  rewrite (join_split "="), (split_tail v attrs Hv Hwf). cbn [Str.uncons].
  rewrite (mapM_map deseralizeOption Header.text
             (fun a => (Header.normal_name a, Header.a_value a))).
  - cbn [result_bind]. rewrite !option_value_given.
    unfold Header.expiresAt.
    destruct (Header.given "max-age" attrs) as [[| c1 x1] |];
      cbn [Str.truthy default from_option id]; try reflexivity;
      destruct (Header.given "expires" attrs) as [[| c2 x2] |];
      reflexivity.
  - intros a Ha. apply deseralizeOption_text.
    apply (proj1 (forallb_forall _ _) Hwf a Ha).
Qed.

(** C8, as amended.  [deseralizeCookie] returns a cookie for every header.
    A header with an ["="] is [name=value;attribute;...]: its cookie has
    that name and value, the attributes under their trimmed lower-case
    names, and [expires] read from the last [max-age] with a non-empty
    value as [now + Number(value) * 1000], which is NaN when the value is
    not a number and leaves [expires] attributes unread; otherwise from
    the last [expires] with a non-empty value as the time of that date,
    NaN when it is not a date; otherwise null.  A header without ["="] has
    no attribute and its [expires] is null.  So [expires] is what the
    specification says or NaN, and the jar handles NaN as it handles
    null. *)
Theorem deseralizeCookie_expires (now : Z) :
  (forall cookie, exists c, deseralizeCookie now cookie = Ok c)
  /\ (forall n v attrs,
        includes "=" n = false ->
        includes ";" v = false ->
        forallb Header.well_formed attrs = true ->
        deseralizeCookie now (Header.render n v attrs)
        = Ok {| name := n; value := v;
                expires := Header.expiresAt now attrs;
                options :=
                  Obj.fromEntries
                    (map (fun a => (Header.normal_name a, Header.a_value a))
                       attrs) |})
  /\ (forall cookie,
        includes "=" cookie = true ->
        exists n v attrs,
          includes "=" n = false
          /\ includes ";" v = false
          /\ forallb Header.well_formed attrs = true
          /\ cookie = Header.render n v attrs)
  /\ (forall cookie,
        includes "=" cookie = false ->
        deseralizeCookie now cookie
        = Ok {| name := cookie; value := EmptyString; expires := None;
                options := [] |})
  /\ (forall cookie c,
        deseralizeCookie now cookie = Ok c ->
        expires c = Spec.expiresAt now (options c)
        \/ expires c = Some NaN)
  /\ (forall (now' : Z) (e : string * Entry),
        e_expires (snd e) = Some NaN ->
        retained now' e = true
        /\ ttl_of now' (e_expires (snd e)) = PosInf).
Proof.
  split; [exact (deseralizeCookie_ok now) |].
  split; [exact (deseralizeCookie_render now) |].
  split; [exact header_decomposition |].
  split; [| split].
  - intros cookie Hc. unfold deseralizeCookie.
    rewrite (split_none "=" cookie Hc). reflexivity.
  - intros cookie c. unfold deseralizeCookie.
    destruct (Str.uncons (Str.split "=" cookie)) as [n rest].
    destruct (Str.uncons (Str.split ";" (Str.join "=" rest)))
      as [v _options].
    destruct (mapM deseralizeOption _options) as [pairs |];
      [| discriminate].
    cbn [result_bind]. intros [= <-]. cbn [expires options].
    unfold Spec.expiresAt.
    generalize (Obj.fromEntries pairs) as opts. intros opts.
    destruct (option_value "max-age" opts) as [[| c1 v1] |];
      cbn [Str.truthy default from_option id].
    2: { destruct (Number (String c1 v1));
           [right | left | left | left]; reflexivity. }
    all: destruct (option_value "expires" opts) as [[| c2 v2] |];
      cbn [Str.truthy default from_option id]; try (left; reflexivity);
      destruct (Date_getTime (String c2 v2));
      [right | left | left | left]; reflexivity.
  - intros now' e He. unfold retained. rewrite He. split; reflexivity.
Qed.

End CookieProperties.

Section JarProperties.
Context `{Platform}.

Lemma In_set {V : Type} (k k' : string) (v v' : V) (o : Obj.object V) :
  In (k, v) (Obj.set k' v' o) -> (k, v) = (k', v') \/ In (k, v) o.
Proof.
  induction o as [| [k1 v1] o IH]; simpl.
  - intros [E | []]. left. congruence.
  - destruct (String.eqb k1 k'); simpl.
    + intros [E | Hin]; [left; congruence | auto].
    + intros [E | Hin]; [auto |]. destruct (IH Hin); auto.
Qed.

Lemma In_fold_put {V : Type} (l : list (string * V)) (o : Obj.object V)
    (e : string * V) :
  In e (fold_left Obj.put l o) -> In e l \/ In e o.
Proof.
  revert o. induction l as [| e' l IH]; intros o; simpl; [auto |].
  intros Hin. destruct (IH _ Hin) as [Hl | Ho]; [auto |].
  destruct e as [k v], e' as [k' v']. unfold Obj.put in Ho. simpl in Ho.
  apply In_set in Ho. destruct Ho as [-> | Ho]; auto.
Qed.

Lemma run_getCookies_read {S : Type} (h : Handler S) (s : S) (now : Z)
    (credentials : RequestCredentials) (u : string) :
  credentials <> omit ->
  fst (fst (run h (getCookies now credentials u) s))
  = Ok (match stored h u s with
        | Some item =>
            Obj.fromEntries (List.filter (retained now) (Obj.entries item))
        | None => []
        end).
Proof.
  intros Hc.
  assert (Hread :
    fst (fst (run h
      (let* _ := ensureReady in
       let* value := perform (CacheGet (URL_origin u) "cookies") in
       match value with
       | None => Ret []
       | Some _cookies =>
           Ret (Obj.fromEntries
                  (List.filter (retained now) (Obj.entries _cookies)))
       end) s))
    = Ok (match stored h u s with
          | Some item =>
              Obj.fromEntries (List.filter (retained now) (Obj.entries item))
          | None => []
          end)).
  { unfold stored, at_read. rewrite run_bind.
    destruct (run_ensureReady h s) as (s1 & t1 & -> & _).
    unfold perform. cbn.
    destruct (h _ (CacheGet (URL_origin u) "cookies") s1) as [value s2].
    destruct value; reflexivity. }
  unfold getCookies. destruct credentials; [contradiction | |]; exact Hread.
Qed.

(** When the cache has no entry for the origin, [getCookies] returns the
    empty collection. *)
Lemma getCookies_no_entry {S : Type} (h : Handler S) (s : S) (now : Z)
    (credentials : RequestCredentials) (u : string) :
  credentials <> omit ->
  stored h u s = None ->
  fst (fst (run h (getCookies now credentials u) s)) = Ok [].
Proof.
  intros Hc Hs. rewrite (run_getCookies_read h s now credentials u Hc), Hs.
  reflexivity.
Qed.

(** X5. From a stored item with distinct names, [getCookies] returns under
    a name the stored entry of that name when the entry passes the filter
    ([expires] null, 0 or NaN, or at or before [now]) and nothing under
    that name otherwise. *)
Theorem getCookies_lookup {S : Type} (h : Handler S) (s : S) (now : Z)
    (credentials : RequestCredentials) (u : string) (item : Collection) :
  credentials <> omit ->
  stored h u s = Some item ->
  List.NoDup (map fst item) ->
  exists jar,
    fst (fst (run h (getCookies now credentials u) s)) = Ok jar
    /\ forall (k : string) (e : Entry),
         Obj.get k jar = Some e
         <-> Obj.get k item = Some e /\ retained now (k, e) = true.
Proof.
  intros Hc Hs Hnd. eexists. split.
  - rewrite (run_getCookies_read h s now credentials u Hc), Hs. reflexivity.
  - intros k e. apply getCookies_retained. exact Hnd.
Qed.

(** X6. Whatever the cache answers, [getCookies] does not fail and does
    not write; the collection it returns has distinct names and every
    entry in it passes the filter. *)
Theorem getCookies_invariant {S : Type} (h : Handler S) (s : S) (now : Z)
    (credentials : RequestCredentials) (u : string) :
  exists jar,
    fst (fst (run h (getCookies now credentials u) s)) = Ok jar
    /\ writes (snd (run h (getCookies now credentials u) s)) = []
    /\ List.NoDup (map fst jar)
    /\ forall e, In e jar -> retained now e = true.
Proof.
  destruct (run_getCookies h s now credentials u)
    as (jar & s' & t & Hrun & Hw & Hnd).
  exists jar. rewrite Hrun. repeat split; try assumption.
  intros e He.
  destruct credentials.
  - unfold getCookies in Hrun. simpl in Hrun. injection Hrun as <- _ _.
    contradiction.
  - pose proof (run_getCookies_read h s now same_origin u
                  ltac:(discriminate)) as Hr.
    rewrite Hrun in Hr. simpl in Hr. injection Hr as ->.
    destruct (stored h u s) as [item |]; [| destruct He].
    apply In_fold_put in He. destruct He as [He | []].
    apply filter_In in He. exact (proj2 He).
  - pose proof (run_getCookies_read h s now include u
                  ltac:(discriminate)) as Hr.
    rewrite Hrun in Hr. simpl in Hr. injection Hr as ->.
    destruct (stored h u s) as [item |]; [| destruct He].
    apply In_fold_put in He. destruct He as [He | []].
    apply filter_In in He. exact (proj2 He).
Qed.

(** X7. The filter of [getCookies] only opens with time: an entry returned
    at one time is returned at every later time, as long as the cache
    holds it. *)
Theorem retained_monotone (now now' : Z) (e : string * Entry) :
  retained now e = true ->
  now <= now' ->
  retained now' e = true.
Proof.
  unfold retained. destruct (e_expires (snd e)) as [x |]; [| reflexivity].
  destruct (Num.truthy x); [| reflexivity].
  destruct x as [| | z |]; simpl; intros Hle Hnow; try assumption.
  apply Z.leb_le. apply Z.leb_le in Hle. lia.
Qed.

Lemma run_saveCookies {S : Type} (h : Handler S) (s s1 : S) (now : Z)
    (response : Response) (old : Collection) (t1 : list Call)
    (parsed : list (string * Entry)) :
  run h (getCookies now include (res_url response)) s = (Ok old, s1, t1) ->
  mapM (setCookieEntry now) (res_getSetCookie response) = Ok parsed ->
  fst (fst (run h (saveCookies now response) s)) = Ok tt
  /\ writes (snd (run h (saveCookies now response) s))
     = match Obj.values (Obj.spread2 old (Obj.fromEntries parsed)) with
       | [] => []
       | first :: others =>
           [(URL_origin (res_url response),
             Obj.spread2 old (Obj.fromEntries parsed),
             ttl_of now (e_expires (fold_left later others first)))]
       end.
Proof.
  intros Hget Hparsed.
  destruct (run_getCookies h s now include (res_url response))
    as (old' & s1' & t1' & Hget' & Ht1 & _).
  rewrite Hget in Hget'. injection Hget' as <- <- <-.
  unfold saveCookies. rewrite run_bind, Hget, Hparsed.
  cbn [lift bind].
  destruct (Obj.values (Obj.spread2 old (Obj.fromEntries parsed)))
    as [| first others].
  - cbn. rewrite app_nil_r. auto.
  - rewrite run_bind.
    destruct (run_ensureReady h s1) as (s2 & t2 & -> & Ht2).
    unfold perform. cbn. destruct (h _ _ s2) as [[] s3]. cbn.
    rewrite !writes_app, Ht1, Ht2. auto.
Qed.

(** X8. [saveCookies] fails exactly when the URL of the response does not
    parse, with a TypeError and before any call to the cache.  For a URL
    that parses it does not fail, whatever the headers and whatever the
    cache answers, and it writes at most once, under the origin of the
    response. *)
Theorem saveCookies_total {S : Type} (h : Handler S) (s : S) (now : Z)
    (response : Response) :
  (URL_canParse (res_url response) = false ->
   run h (saveCookies_url now response) s
   = (Raise (TypeError "Invalid URL"), s, []))
  /\ (URL_canParse (res_url response) = true ->
      fst (fst (run h (saveCookies_url now response) s)) = Ok tt
      /\ (writes (snd (run h (saveCookies_url now response) s)) = []
          \/ exists item ttl,
               writes (snd (run h (saveCookies_url now response) s))
               = [(URL_origin (res_url response), item, ttl)])).
Proof.
  unfold saveCookies_url. split; intros Hurl; rewrite Hurl;
    [reflexivity |].
  destruct (run_getCookies h s now include (res_url response))
    as (old & s1 & t1 & Hget & _ & _).
  destruct (mapM_ok (setCookieEntry now) (res_getSetCookie response)
              (setCookieEntry_ok now)) as [parsed Hparsed].
  destruct (run_saveCookies h s s1 now response old t1 parsed Hget Hparsed)
    as [Hok Hw].
  split; [exact Hok |]. rewrite Hw.
  destruct (Obj.values (Obj.spread2 old (Obj.fromEntries parsed)));
    [left; reflexivity | right; eauto].
Qed.

Lemma ttl_of_range (now : Z) (x : option number) :
  ttl_of now x = PosInf \/ exists z, ttl_of now x = Fin z /\ 0 <= z.
Proof.
  destruct x as [[| | z |] |]; simpl; auto.
  - right. exists 0. split; [reflexivity | lia].
  - destruct (z =? 0); simpl; [auto |]. right.
    destruct (0 <? z + - now) eqn:E.
    + exists (z + - now). split; [reflexivity |].
      apply Z.ltb_lt in E. lia.
    + exists 0. split; [reflexivity | lia].
Qed.

(** X9. The TTL [saveCookies] hands to the cache is never negative and
    never NaN: it is [Infinity] or a finite number of milliseconds at
    least 0. *)
Theorem saveCookies_ttl_range {S : Type} (h : Handler S) (s : S) (now : Z)
    (response : Response) (segment : string) (item : Collection)
    (ttl : number) :
  In (segment, item, ttl) (writes (snd (run h (saveCookies now response) s)))
  ->
  ttl = PosInf \/ exists z, ttl = Fin z /\ 0 <= z.
Proof.
  intros Hin. apply saveCookies_writes in Hin.
  destruct Hin as (_ & first & others & _ & ->). apply ttl_of_range.
Qed.




(** X11. The cookie interceptor does not write to the cache.  It sets the
    [cookie] header to the serialized collection [getCookies] returned,
    without the HTTP white space at its two ends, and hands the request on
    with its URL, its credentials mode and every other header untouched;
    when that text holds a NUL, a line feed or a carriage return, the
    interceptor fails instead. *)
Theorem cookieInjection_frame {S : Type} (h : Handler S) (s : S) (now : Z)
    (request : Request) :
  exists jar,
    fst (fst (run h (getCookies now (req_credentials request)
                       (req_url request)) s)) = Ok jar
    /\ writes (snd (run h (cookieInjection now request) s)) = []
    /\ (is_header_value (normalize (serializeCookies jar)) = false ->
        fst (fst (run h (cookieInjection now request) s))
        = Raise (TypeError "Invalid header value"))
    /\ (is_header_value (normalize (serializeCookies jar)) = true ->
        exists request',
          fst (fst (run h (cookieInjection now request) s)) = Ok request'
          /\ req_url request' = req_url request
          /\ req_credentials request' = req_credentials request
          /\ req_headers request' !! "cookie"
             = Some (normalize (serializeCookies jar))
          /\ forall k : string,
               k <> "cookie" ->
               req_headers request' !! k = req_headers request !! k).
Proof.
  destruct (run_getCookies h s now (req_credentials request)
              (req_url request)) as (jar & s' & t & Hrun & Hw & _).
  unfold cookieInjection, Headers_set. rewrite run_bind, Hrun.
  exists jar. split; [reflexivity |].
  destruct (is_header_value (normalize (serializeCookies jar))); cbn;
    rewrite app_nil_r.
  - split; [exact Hw |]. split; [discriminate |]. intros _.
    eexists. split; [reflexivity |]. cbn.
    split; [reflexivity |]. split; [reflexivity |].
    split; [apply lookup_insert_eq |].
    intros k Hk. apply lookup_insert_ne. congruence.
  - split; [exact Hw |]. split; [reflexivity | discriminate].
Qed.

(** X12. When the cache has no entry for the origin of the request, the
    interceptor sets the [cookie] header to the empty string. *)
Theorem cookieInjection_no_entry {S : Type} (h : Handler S) (s : S)
    (now : Z) (request : Request) :
  req_credentials request <> omit ->
  stored h (req_url request) s = None ->
  exists request',
    fst (fst (run h (cookieInjection now request) s)) = Ok request'
    /\ req_headers request' !! "cookie" = Some EmptyString.
Proof.
  intros Hc Hs.
  pose proof (getCookies_no_entry h s now _ _ Hc Hs) as Hjar.
  unfold cookieInjection. rewrite run_bind.
  destruct (run h (getCookies now (req_credentials request)
                     (req_url request)) s) as [[r s'] t].
  simpl in Hjar. subst r. cbn. eexists. split; [reflexivity |].
  cbn. apply lookup_insert_eq.
Qed.

(** X13. The response interceptor fails when the URL of the response does
    not parse, with a TypeError and without a call to the cache.  For a
    URL that parses it hands on the response it was given, whatever its
    headers and whatever the cache answers, after the calls of
    [saveCookies]. *)
Theorem cookieCapture_returns {S : Type} (h : Handler S) (s : S) (now : Z)
    (response : Response) :
  (URL_canParse (res_url response) = false ->
   run h (cookieCapture now response) s
   = (Raise (TypeError "Invalid URL"), s, []))
  /\ (URL_canParse (res_url response) = true ->
      fst (fst (run h (cookieCapture now response) s)) = Ok response
      /\ snd (run h (cookieCapture now response) s)
         = snd (run h (saveCookies now response) s)).
Proof.
  unfold cookieCapture, saveCookies_url. split; intros Hurl; rewrite Hurl;
    [reflexivity |].
  destruct (run_getCookies h s now include (res_url response))
    as (old & s1 & t1 & Hget & _ & _).
  destruct (mapM_ok (setCookieEntry now) (res_getSetCookie response)
              (setCookieEntry_ok now)) as [parsed Hparsed].
  destruct (run_saveCookies h s s1 now response old t1 parsed Hget Hparsed)
    as [Hok _].
  rewrite run_bind.
  destruct (run h (saveCookies now response) s) as [[r s'] t].
  simpl in Hok. subst r. cbn. rewrite app_nil_r. auto.
Qed.



End JarProperties.

Section LoginProperties.
Context `{Platform}.

(** X15. When the first identity call comes back with an error, [login]
    returns that error as it is, with no data, and makes no other call. *)
Theorem login_error_passthrough {S : Type} (h : Handler S) (s s1 : S)
    (c : LoginCredentials) (r : FetchResult) (e : ErrorValue) :
  h _ (GetCurrentUser (loginOptions c)) s = (r, s1) ->
  error r = Some e ->
  run h (login c) s =
    (Ok {| data := None; error := Some e;
           request := request r; response := response r |},
     s1, [MkCall (GetCurrentUser (loginOptions c))]).
Proof.
  intros Hcall Herror. unfold login, perform. simpl.
  rewrite Hcall, Herror. reflexivity.
Qed.

(** X16. When the first identity call succeeds and its body does not ask
    for a second factor, [login] returns that body with no error; it makes
    no other call, and neither the secret nor the code provider is used. *)
Theorem login_without_second_factor {S : Type} (h : Handler S) (s s1 : S)
    (c : LoginCredentials) (r : FetchResult) :
  h _ (GetCurrentUser (loginOptions c)) s = (r, s1) ->
  error r = None ->
  (forall methods, data r <> Some (TwoFactorRequired methods)) ->
  run h (login c) s =
    (Ok {| data := data r; error := None;
           request := request r; response := response r |},
     s1, [MkCall (GetCurrentUser (loginOptions c))]).
Proof.
  intros Hcall Herror Hdata. unfold login, perform. simpl.
  rewrite Hcall, Herror.
  destruct (data r) as [[name | methods] |] eqn:Ed; try reflexivity.
  exfalso. exact (Hdata methods eq_refl).
Qed.

(** X17. When a code provider is given, the secret plays no part: [login]
    is the same program with and without it. *)
Theorem login_secret_ignored (c : LoginCredentials) (f : Prog string) :
  twoFactorCode c = Some f ->
  login c = login (without_secret c).
Proof.
  intros Hf. destruct c as [u p secret code]. simpl in Hf. subst code.
  unfold login, resolveCode, without_secret, loginOptions. simpl.
  rewrite andb_false_r. reflexivity.
Qed.

(** X18. A non-empty secret alone is the same as a provider that asks the
    TOTP generator for the code of that secret. *)
Theorem login_secret_as_provider (c : LoginCredentials) (secret : string) :
  twoFactorSecret c = Some secret ->
  secret <> EmptyString ->
  twoFactorCode c = None ->
  login c = login (with_generator c secret).
Proof.
  intros Hs Hne Hf. destruct c as [u p sec code]. simpl in Hs, Hf.
  subst sec code. destruct secret as [| a secret]; [contradiction |].
  reflexivity.
Qed.

(** X19. An empty secret counts as no secret: with no provider and a
    second factor asked for, [login] returns the error ("Missing two-factor
    authentication, incomplete login flow", 400) and the TOTP generator is
    not called. *)
Theorem login_empty_secret {S : Type} (h : Handler S) (s s1 : S)
    (c : LoginCredentials) (r : FetchResult) (methods : list string) :
  twoFactorSecret c = Some EmptyString ->
  twoFactorCode c = None ->
  h _ (GetCurrentUser (loginOptions c)) s = (r, s1) ->
  error r = None ->
  data r = Some (TwoFactorRequired methods) ->
  run h (login c) s =
    (Ok (failure missingTwoFactor r), s1,
     [MkCall (GetCurrentUser (loginOptions c))]).
Proof.
  intros Hsecret Hcode Hcall Herror Hdata.
  unfold login, perform. simpl. rewrite Hcall.
  rewrite Herror, Hdata. unfold resolveCode.
  rewrite Hsecret, Hcode. reflexivity.
Qed.

(** X20. With a code of six characters that the service verifies, [login]
    sends the code in one verification call, then fetches the identity
    again, this time without the [omit] credentials mode and without the
    authorization header, and returns the result of that call as it is. *)
Theorem login_verified {S : Type} (h : Handler S) (s s1 s2 s3 s4 : S)
    (c : LoginCredentials) (r r' : FetchResult) (methods : list string)
    (twoFactorCode : Prog string) (code : string) (calls : list Call)
    (v : VerifyResult) :
  h _ (GetCurrentUser (loginOptions c)) s = (r, s1) ->
  error r = None ->
  data r = Some (TwoFactorRequired methods) ->
  resolveCode c = Some twoFactorCode ->
  run h twoFactorCode s1 = (Ok code, s2, calls) ->
  String.length code = 6%nat ->
  h _ (Verify2Fa code) s2 = (v, s3) ->
  vr_data v = Some {| verified := true |} ->
  h _ (GetCurrentUser {| o_credentials := None; o_authorization := None |})
    s3 = (r', s4) ->
  run h (login c) s =
    (Ok r', s4,
     MkCall (GetCurrentUser (loginOptions c))
       :: calls
       ++ [MkCall (Verify2Fa code);
           MkCall (GetCurrentUser {| o_credentials := None;
                                     o_authorization := None |})]).
Proof.
  intros Hcall Herror Hdata Hresolve Hcode Hlen Hverify Hv Hagain.
  rewrite (login_concludes h s s1 s2 s3 c r methods twoFactorCode code calls
             v Hcall Herror Hdata Hresolve Hcode Hlen Hverify).
  rewrite conclude_existsb. unfold data_verified at 1. simpl. rewrite Hv.
  simpl. unfold perform. simpl. rewrite Hagain. reflexivity.
Qed.

(** X21. With a code of six characters that the service does not verify,
    [login] makes the one verification call and no call after it, and
    returns the error for status 429 when that call came back with 429 and
    the invalid-code error otherwise. *)
Theorem login_rejected {S : Type} (h : Handler S) (s s1 s2 s3 : S)
    (c : LoginCredentials) (r : FetchResult) (methods : list string)
    (twoFactorCode : Prog string) (code : string) (calls : list Call)
    (v : VerifyResult) :
  h _ (GetCurrentUser (loginOptions c)) s = (r, s1) ->
  error r = None ->
  data r = Some (TwoFactorRequired methods) ->
  resolveCode c = Some twoFactorCode ->
  run h twoFactorCode s1 = (Ok code, s2, calls) ->
  String.length code = 6%nat ->
  h _ (Verify2Fa code) s2 = (v, s3) ->
  data_verified (Some v) = false ->
  run h (login c) s =
    (Ok (failure (if res_status (vr_response v) =? 429
                  then tooManyAttempts else invalidCode) r),
     s3,
     MkCall (GetCurrentUser (loginOptions c))
       :: calls ++ [MkCall (Verify2Fa code)]).
Proof.
  intros Hcall Herror Hdata Hresolve Hcode Hlen Hverify Hv.
  rewrite (login_concludes h s s1 s2 s3 c r methods twoFactorCode code calls
             v Hcall Herror Hdata Hresolve Hcode Hlen Hverify).
  rewrite conclude_existsb. cbn [existsb]. rewrite !orb_false_r, Hv.
  unfold status_is_429, failure.
  destruct (res_status (vr_response v) =? 429); reflexivity.
Qed.

End LoginProperties.

(** ** The further properties on the reference world *)

Section MoreExamples.
Import Reference.
#[local] Existing Instance platform.

Lemma deseralizeCookie_serializeCookie_witness :
  deseralizeCookie 0 (serializeCookie "auth" "YWJj==")
  = Ok {| name := "auth"; value := "YWJj=="; expires := None;
          options := [] |}.
Proof.
  apply (deseralizeCookie_serializeCookie 0 "auth" "YWJj=="); reflexivity.
Defined.

Lemma deseralizeCookie_name_value_witness :
  exists c,
    deseralizeCookie 0
      ("auth" +:+ "=" +:+ "YWJj==" +:+ ";" +:+ " Path=/; HttpOnly") = Ok c
    /\ name c = "auth" /\ value c = "YWJj==".
Proof.
  apply (deseralizeCookie_name_value 0 "auth" "YWJj==" " Path=/; HttpOnly");
    reflexivity.
Defined.

Lemma deseralizeCookie_no_equals_witness :
  deseralizeCookie 0 "flag; Secure"
  = Ok {| name := "flag; Secure"; value := EmptyString; expires := None;
          options := [] |}.
Proof.
  apply (deseralizeCookie_no_equals 0 "flag; Secure"). reflexivity.
Defined.

Lemma deseralizeCookie_option_names_witness :
  Str.toLowerCase "max-age" = "max-age" /\ Str.trim "max-age" = "max-age".
Proof.
  apply (deseralizeCookie_option_names 0 "a=1;  Max-Age =60"
           {| name := "a"; value := "1"; expires := Some (Fin 60000);
              options := [("max-age", Some "60")] |}
           "max-age" (Some "60")).
  - vm_compute. reflexivity.
  - simpl. left. reflexivity.
Defined.

Lemma getCookies_lookup_witness :
  exists jar,
    fst (fst (run handle (getCookies 2000 include url)
                (world (Some [("a", until "1" 1000); ("c", session "3")])
                   "246810")))
    = Ok jar
    /\ forall (k : string) (e : Entry),
         Obj.get k jar = Some e
         <-> Obj.get k [("a", until "1" 1000); ("c", session "3")] = Some e
             /\ retained 2000 (k, e) = true.
Proof.
  apply (getCookies_lookup handle
           (world (Some [("a", until "1" 1000); ("c", session "3")])
              "246810")
           2000 include url
           [("a", until "1" 1000); ("c", session "3")]).
  - discriminate.
  - vm_compute. reflexivity.
  - simpl. repeat constructor; simpl; intuition discriminate.
Defined.

Lemma retained_monotone_witness :
  retained 5000 ("a", until "1" 1000) = true.
Proof.
  apply (retained_monotone 2000 5000 ("a", until "1" 1000));
    [reflexivity | lia].
Defined.

Lemma saveCookies_ttl_range_witness :
  Fin 9000 = PosInf \/ exists z, Fin 9000 = Fin z /\ 0 <= z.
Proof.
  apply (saveCookies_ttl_range handle (world None "246810") 1000
           (a_response ["a=1; Max-Age=5"; "b=2; Max-Age=9"]) origin
           [("a", {| e_value := "1"; e_expires := Some (Fin 6000);
                     e_options := [("max-age", Some "5")] |});
            ("b", {| e_value := "2"; e_expires := Some (Fin 10000);
                     e_options := [("max-age", Some "9")] |})]).
  vm_compute. left. reflexivity.
Defined.


Lemma cookieInjection_no_entry_witness :
  exists request',
    fst (fst (run handle (cookieInjection 0 a_request)
                (world None "246810"))) = Ok request'
    /\ req_headers request' !! "cookie" = Some EmptyString.
Proof.
  apply (cookieInjection_no_entry handle (world None "246810") 0 a_request).
  - discriminate.
  - reflexivity.
Defined.

Lemma login_error_passthrough_witness :
  let c := {| username := "u"; password := "p"; twoFactorSecret := None;
              twoFactorCode := None |} in
  run handle (login c) (world_answering unauthorized (a_verdict false 400))
  = (Ok {| data := None; error := error unauthorized;
           request := request unauthorized;
           response := response unauthorized |},
     world_answering unauthorized (a_verdict false 400),
     [MkCall (GetCurrentUser (loginOptions c))]).
Proof.
  apply (login_error_passthrough handle
           (world_answering unauthorized (a_verdict false 400))
           (world_answering unauthorized (a_verdict false 400))
           {| username := "u"; password := "p"; twoFactorSecret := None;
              twoFactorCode := None |}
           unauthorized
           {| message := "Invalid Username/Email or Password";
              status_code := 401 |});
    reflexivity.
Defined.

Lemma login_without_second_factor_witness :
  let c := {| username := "u"; password := "p";
              twoFactorSecret := Some "JBSWY3DP"; twoFactorCode := None |} in
  run handle (login c) (world_answering a_user (a_verdict false 400))
  = (Ok {| data := data a_user; error := None; request := request a_user;
           response := response a_user |},
     world_answering a_user (a_verdict false 400),
     [MkCall (GetCurrentUser (loginOptions c))]).
Proof.
  apply (login_without_second_factor handle
           (world_answering a_user (a_verdict false 400))
           (world_answering a_user (a_verdict false 400))
           {| username := "u"; password := "p";
              twoFactorSecret := Some "JBSWY3DP"; twoFactorCode := None |}
           a_user).
  - reflexivity.
  - reflexivity.
  - simpl. discriminate.
Defined.

Lemma login_secret_ignored_witness :
  let c := {| username := "u"; password := "p";
              twoFactorSecret := Some "JBSWY3DP";
              twoFactorCode := Some (Ret "123456") |} in
  login c = login (without_secret c).
Proof.
  apply (login_secret_ignored
           {| username := "u"; password := "p";
              twoFactorSecret := Some "JBSWY3DP";
              twoFactorCode := Some (Ret "123456") |}
           (Ret "123456")).
  reflexivity.
Defined.

Lemma login_secret_as_provider_witness :
  let c := {| username := "u"; password := "p";
              twoFactorSecret := Some "JBSWY3DP"; twoFactorCode := None |} in
  login c = login (with_generator c "JBSWY3DP").
Proof.
  apply (login_secret_as_provider
           {| username := "u"; password := "p";
              twoFactorSecret := Some "JBSWY3DP"; twoFactorCode := None |}
           "JBSWY3DP").
  - reflexivity.
  - discriminate.
  - reflexivity.
Defined.

Lemma login_empty_secret_witness :
  let c := {| username := "u"; password := "p";
              twoFactorSecret := Some EmptyString;
              twoFactorCode := None |} in
  run handle (login c) (world None "246810")
  = (Ok (failure missingTwoFactor needs_factor), world None "246810",
     [MkCall (GetCurrentUser (loginOptions c))]).
Proof.
  apply (login_empty_secret handle (world None "246810")
           (world None "246810")
           {| username := "u"; password := "p";
              twoFactorSecret := Some EmptyString; twoFactorCode := None |}
           needs_factor ["totp"]);
    reflexivity.
Defined.

Lemma login_verified_witness :
  let c := {| username := "u"; password := "p";
              twoFactorSecret := Some "246810"; twoFactorCode := None |} in
  run handle (login c) (world None "246810")
  = (Ok a_user, world None "246810",
     MkCall (GetCurrentUser (loginOptions c))
       :: [MkCall (TOTPGenerate "246810")]
       ++ [MkCall (Verify2Fa "246810");
           MkCall (GetCurrentUser {| o_credentials := None;
                                     o_authorization := None |})]).
Proof.
  apply (login_verified handle (world None "246810") (world None "246810")
           (world None "246810") (world None "246810")
           (world None "246810")
           {| username := "u"; password := "p";
              twoFactorSecret := Some "246810"; twoFactorCode := None |}
           needs_factor a_user ["totp"]
           (perform (TOTPGenerate "246810")) "246810"
           [MkCall (TOTPGenerate "246810")] (a_verdict true 200));
    reflexivity.
Defined.

Lemma login_rejected_witness :
  let c := {| username := "u"; password := "p";
              twoFactorSecret := Some "135791"; twoFactorCode := None |} in
  run handle (login c) (world_answering needs_factor (a_verdict false 429))
  = (Ok (failure tooManyAttempts needs_factor),
     world_answering needs_factor (a_verdict false 429),
     MkCall (GetCurrentUser (loginOptions c))
       :: [MkCall (TOTPGenerate "135791")]
       ++ [MkCall (Verify2Fa "135791")]).
Proof.
  apply (login_rejected handle
           (world_answering needs_factor (a_verdict false 429))
           (world_answering needs_factor (a_verdict false 429))
           (world_answering needs_factor (a_verdict false 429))
           (world_answering needs_factor (a_verdict false 429))
           {| username := "u"; password := "p";
              twoFactorSecret := Some "135791"; twoFactorCode := None |}
           needs_factor ["totp"]
           (perform (TOTPGenerate "135791")) "135791"
           [MkCall (TOTPGenerate "135791")] (a_verdict false 429));
    reflexivity.
Defined.

Lemma deseralizeCookie_expires_witness :
  deseralizeCookie 1000
    (Header.render "a" "1"
       [{| Header.a_name := " Max-Age"; Header.a_value := Some "60";
           Header.a_more := None |};
        {| Header.a_name := " HttpOnly"; Header.a_value := None;
           Header.a_more := None |}])
  = Ok {| name := "a"; value := "1"; expires := Some (Fin 61000);
          options := [("max-age", Some "60"); ("httponly", None)] |}.
Proof.
  exact (proj1 (proj2 (deseralizeCookie_expires 1000)) "a" "1"
           [{| Header.a_name := " Max-Age"; Header.a_value := Some "60";
               Header.a_more := None |};
            {| Header.a_name := " HttpOnly"; Header.a_value := None;
               Header.a_more := None |}]
           eq_refl eq_refl eq_refl).
Defined.

Lemma saveCookies_total_witness :
  run handle
    (saveCookies_url 0 {| res_url := EmptyString;
                          res_getSetCookie := ["a=1"];
                          res_status := 200 |})
    (world None "246810")
  = (Raise (TypeError "Invalid URL"), world None "246810", []).
Proof.
  apply (proj1 (saveCookies_total handle (world None "246810") 0
                  {| res_url := EmptyString; res_getSetCookie := ["a=1"];
                     res_status := 200 |})).
  reflexivity.
Defined.

Lemma cookieInjection_frame_witness :
  let jar := [("a", {| e_value := "1 "; e_expires := None;
                       e_options := [("path", Some "/")] |})] in
  exists jar',
    fst (fst (run handle (getCookies 0 include url)
                (world (Some jar) "246810"))) = Ok jar'
    /\ serializeCookies jar' = "a=1 "
    /\ exists request',
         fst (fst (run handle (cookieInjection 0 a_request)
                     (world (Some jar) "246810"))) = Ok request'
         /\ req_headers request' !! "cookie" = Some "a=1".
Proof.
  cbv zeta.
  destruct (cookieInjection_frame handle
              (world (Some [("a", {| e_value := "1 "; e_expires := None;
                                     e_options := [("path", Some "/")] |})])
                 "246810") 0 a_request)
    as (jar' & Hjar & _ & _ & Hok).
  vm_compute in Hjar. injection Hjar as <-.
  eexists. split; [vm_compute; reflexivity |].
  split; [reflexivity |].
  destruct (Hok eq_refl) as (request' & Hrun & _ & _ & Hcookie & _).
  exists request'. split; [exact Hrun | exact Hcookie].
Defined.

Lemma cookieCapture_returns_witness :
  fst (fst (run handle (cookieCapture 0 (a_response ["a=1"]))
              (world None "246810")))
  = Ok (a_response ["a=1"]).
Proof.
  refine (proj1 (proj2 (cookieCapture_returns handle (world None "246810") 0
                          (a_response ["a=1"])) _)).
  reflexivity.
Defined.

End MoreExamples.
